(** * x_xy.io.from_xml : loading a kinematic tree from an XML document

    A shallow embedding of [src/x_xy/io/from_xml.py].  The XML tokenizer
    ([ElementTree.fromstring]) is outside the module: documents enter as
    element trees.  Python's [float], the table [base.QD_WIDTHS] and the
    orientation maths ([base.maths.quat_euler] after [jnp.deg2rad]) are
    collaborators of the module and are taken as section variables. *)

From Stdlib Require Import String Ascii List ZArith Lia Bool QArith.
Import ListNotations.
Close Scope Q_scope.
Local Open Scope string_scope.
Local Open Scope list_scope.

Set Implicit Arguments.
Set Warnings "-register-all".

(** ** Exceptions *)

(** The [assert] statements of the module, named after the place that
    raises them. *)
Inductive AssertSite : Type :=
| StructuralViolation      (* _find_assert_unique: [assert len(value) == 1] *)
| SchemaViolation          (* _assert_all_tags_attrs_valid: both asserts    *)
| ConflictingOrientation   (* process_body: [assert "euler" not in ...]     *)
| NonContiguousIds.        (* assert_order_then_to_list                     *)

Inductive Error : Type :=
| AssertionError (site : AssertSite)
| AttributeError               (* attribute access on [None]           *)
| KeyError (key : string)      (* [d[key]] on a dict without [key]     *)
| IndexError                   (* index out of range, or into a 0-d array *)
| TypeError.                   (* unhashable key, string where an array is due *)

Inductive result (A : Type) : Type :=
| Ok (a : A)
| Err (e : Error).
Arguments Ok {A} a.
Arguments Err {A} e.

Definition rbind {A B} (r : result A) (k : A -> result B) : result B :=
  match r with
  | Ok a => k a
  | Err e => Err e
  end.

Definition assert_at (site : AssertSite) (b : bool) : result unit :=
  if b then Ok tt else Err (AssertionError site).

Declare Scope result_scope.
Delimit Scope result_scope with result.
Notation "x <- c ;; k" := (rbind c (fun x => k))
  (at level 61, c at next level, right associativity) : result_scope.
Notation "c ;;; k" := (rbind c (fun _ => k))
  (at level 61, right associativity) : result_scope.

Declare Scope store_scope.
Delimit Scope store_scope with store.

(** ** Strings *)

(** [s.split(sep)] for a one-character separator: the pieces between
    consecutive separators, empty pieces included. *)
Fixpoint split_on (sep : ascii) (s : string) : list string :=
  match s with
  | EmptyString => [EmptyString]
  | String c rest =>
      if Ascii.eqb c sep then EmptyString :: split_on sep rest
      else match split_on sep rest with
           | [] => [String c EmptyString]
           | piece :: pieces => String c piece :: pieces
           end
  end.

(** [key.split("_")[0]] *)
Definition split_head (sep : ascii) (s : string) : string :=
  hd EmptyString (split_on sep s).

(** [key[n:]] *)
Fixpoint drop_chars (n : nat) (s : string) : string :=
  match n, s with
  | O, _ => s
  | S n', String _ rest => drop_chars n' rest
  | S _, EmptyString => EmptyString
  end.

(** ** Python dicts: insertion-ordered, one entry per key *)

Section Dict.
Variables K V : Type.
Variable eqbK : K -> K -> bool.

Definition dict := list (K * V).

Definition keys (d : dict) : list K := map fst d.
Definition values (d : dict) : list V := map snd d.

Fixpoint dict_get (d : dict) (k : K) : option V :=
  match d with
  | [] => None
  | (k', v) :: d' => if eqbK k' k then Some v else dict_get d' k
  end.

Definition dict_mem (d : dict) (k : K) : bool :=
  match dict_get d k with Some _ => true | None => false end.

(** [d[k] = v]: an existing key keeps its place, a new key goes last. *)
Fixpoint dict_set (d : dict) (k : K) (v : V) : dict :=
  match d with
  | [] => [(k, v)]
  | (k', v') :: d' =>
      if eqbK k' k then (k', v) :: d' else (k', v') :: dict_set d' k v
  end.

(** [d.get(k, default)] *)
Definition dict_get_default (d : dict) (k : K) (default : V) : V :=
  match dict_get d k with Some v => v | None => default end.
End Dict.

Arguments dict_get {K V} eqbK d k.
Arguments dict_mem {K V} eqbK d k.
Arguments dict_set {K V} eqbK d k v.
Arguments dict_get_default {K V} eqbK d k default.
Arguments keys {K V} d.
Arguments values {K V} d.

(** Attribute dicts are keyed by strings, the dicts of the traversal by
    link ids. *)
Definition sdict (V : Type) := dict string V.
Definition sget {V} (d : sdict V) (k : string) := dict_get String.eqb d k.
Definition smem {V} (d : sdict V) (k : string) := dict_mem String.eqb d k.
Definition sset {V} (d : sdict V) (k : string) (v : V) := dict_set String.eqb d k v.

Definition idict (V : Type) := dict Z V.
Definition iset {V} (d : idict V) (k : Z) (v : V) := dict_set Z.eqb d k v.

(** [d[k]] *)
Definition getitem {V} (d : sdict V) (k : string) : result V :=
  match sget d k with
  | Some v => Ok v
  | None => Err (KeyError k)
  end.

(** [list(range(n))] *)
Definition range (n : nat) : list Z := map Z.of_nat (seq 0 n).

(** ** The loader *)

Section Loader.

(** Python floats, [float(s)] ([None] where it raises [ValueError]) and
    the literals [0.0] and [1.0]. *)
Variable F : Type.
Variable float : string -> option F.
Variables f0 f1 : F.

(** A [jnp] array as the module meets them: 0-dimensional or
    1-dimensional. *)
Inductive Array : Type :=
| Scalar (x : F)
| Vec (xs : list F).

(** An attribute value: the text of the document, or the array that
    [_convert_attrs_to_arrays] put in its place. *)
Inductive Value : Type :=
| VStr (s : string)
| VArr (a : Array).

(** [base.QD_WIDTHS], joint type -> number of degrees of freedom, and
    [base.maths.quat_euler(jnp.deg2rad(.))]. *)
Variable QD_WIDTHS : sdict nat.
Variable quat_euler_deg2rad : Value -> result Value.

(** An [ElementTree] element: tag, [attrib] and child elements. *)
Inductive Element : Type :=
| Node (tag : string) (attrib : sdict Value) (children : list Element).

Definition tag (e : Element) : string := let (t, _, _) := e in t.
Definition attrib (e : Element) : sdict Value := let (_, a, _) := e in a.
Definition children (e : Element) : list Element := let (_, _, c) := e in c.

(** [e.findall(key)]: the direct children tagged [key], in document
    order. *)
Definition findall (key : string) (e : Element) : list Element :=
  filter (fun c => String.eqb (tag c) key) (children e).

(** [e.iter()]: the element and all its descendants, in document
    (pre-)order. *)
Fixpoint iter (e : Element) : list Element :=
  match e with
  | Node _ _ cs => e :: flat_map iter cs
  end.

(** *** _find_assert_unique *)

Fixpoint _find_assert_unique (tree : Element) (key : string) (keys : list string)
  : result (option Element) :=
  match findall key tree with
  | [] => Ok None
  | [value0] =>
      match keys with
      | [] => Ok (Some value0)
      | key' :: keys' => _find_assert_unique value0 key' keys'
      end
  | _ :: _ :: _ => Err (AssertionError StructuralViolation)
  end.

(** *** _build_defaults_attributes

    [default_attrs] has exactly the keys ["geom"] and ["body"]. *)
Record DefaultAttrs : Type := mkDefaults {
  geom_defaults : sdict Value;
  body_defaults : sdict Value
}.

Definition defaults_of (tree : Element) (tag : string) : result (sdict Value) :=
  (defaults_subtree <- _find_assert_unique tree "defaults" [tag] ;;
   Ok match defaults_subtree with
      | None => []
      | Some e => attrib e
      end)%result.

Definition _build_defaults_attributes (tree : Element) : result DefaultAttrs :=
  (g <- defaults_of tree "geom" ;;
   b <- defaults_of tree "body" ;;
   Ok (mkDefaults g b))%result.

(** *** _assert_all_tags_attrs_valid *)

Definition valid_attrs : sdict (list string) :=
  [ ("x_xy", ["model"]);
    ("options", ["gravity"; "dt"]);
    ("defaults", ["geom"; "body"]);
    ("worldbody", []);
    ("body", ["name"; "pos"; "quat"; "euler"; "joint"; "armature"; "damping"]);
    ("geom", ["type"; "mass"; "pos"; "dim"]) ].

Definition str_in (s : string) (l : list string) : bool :=
  existsb (String.eqb s) l.

Definition is_vispy (attr : string) : bool :=
  String.eqb (split_head "_" attr) "vispy".

Definition attr_valid (tag attr : string) : bool :=
  (String.eqb tag "geom" && is_vispy attr)
  || str_in attr (dict_get_default String.eqb valid_attrs tag []).

Definition node_valid (subtree : Element) : result unit :=
  (assert_at SchemaViolation (str_in (tag subtree) (keys valid_attrs)) ;;;
   assert_at SchemaViolation
     (forallb (attr_valid (tag subtree)) (keys (attrib subtree))))%result.

Fixpoint check_all (nodes : list Element) : result unit :=
  match nodes with
  | [] => Ok tt
  | subtree :: rest => (node_valid subtree ;;; check_all rest)%result
  end.

Definition _assert_all_tags_attrs_valid (xml_tree : Element) : result unit :=
  check_all (iter xml_tree).

(** *** _convert_attrs_to_arrays *)

(** [[float(num) for num in pieces]], [None] as soon as one raises. *)
Fixpoint floats (pieces : list string) : option (list F) :=
  match pieces with
  | [] => Some []
  | num :: rest =>
      match float num with
      | None => None
      | Some x =>
          match floats rest with
          | None => None
          | Some xs => Some (x :: xs)
          end
      end
  end.

(** [jnp.squeeze(jnp.array(xs))]: a single entry gives a 0-dimensional
    array. *)
Definition squeeze (xs : list F) : Array :=
  match xs with
  | [x] => Scalar x
  | _ => Vec xs
  end.

(** The body of the loop for one value.  An array has no [split]: the
    exception is swallowed by the bare [except]. *)
Definition convert_value (v : Value) : Value :=
  match v with
  | VStr s =>
      match floats (split_on " " s) with
      | Some array => VArr (squeeze array)
      | None => v
      end
  | VArr _ => v
  end.

Definition convert_attrib (a : sdict Value) : sdict Value :=
  map (fun kv => (fst kv, convert_value (snd kv))) a.

(** Every element of [xml_tree.iter()] has its [attrib] rewritten in
    place. *)
Fixpoint _convert_attrs_to_arrays (xml_tree : Element) : Element :=
  match xml_tree with
  | Node t a cs => Node t (convert_attrib a) (map _convert_attrs_to_arrays cs)
  end.

(** *** _mix_in_defaults *)

(** One turn of the inner loop: a default whose key the node lacks is
    added. *)
Definition mix_step (default_attrs : sdict Value)
           (attr : sdict Value) (default_attr : string) : sdict Value :=
  if smem attr default_attr then attr
  else match sget default_attrs default_attr with
       | Some v => sset attr default_attr v
       | None => attr
       end.

Definition mix_attrib (attr default_attrs : sdict Value) : sdict Value :=
  fold_left (mix_step default_attrs) (keys default_attrs) attr.

Definition mix_node (default_attrs : DefaultAttrs) (tag : string)
           (attr : sdict Value) : sdict Value :=
  if String.eqb tag "body" then mix_attrib attr (body_defaults default_attrs)
  else if String.eqb tag "geom" then mix_attrib attr (geom_defaults default_attrs)
  else attr.

Fixpoint _mix_in_defaults (default_attrs : DefaultAttrs) (worldbody : Element)
  : Element :=
  match worldbody with
  | Node t a cs =>
      Node t (mix_node default_attrs t a) (map (_mix_in_defaults default_attrs) cs)
  end.

(** *** _vispy_subdict *)

Definition delete_prefix (key : string) : string :=
  drop_chars (String.length (split_head "_" key) + 1) key.

Definition _vispy_subdict (attr : sdict Value) : sdict Value :=
  fold_left
    (fun acc kv => if is_vispy (fst kv) then sset acc (delete_prefix (fst kv)) (snd kv)
                   else acc)
    attr [].

(** *** The values handed to [base]

    [base.Transform], [base.Link] and the geometry classes are data
    holders; they are kept as constructors of what process_body passes
    to them. *)
Record Link : Type := mkLink {   (* base.Link(base.Transform(pos, rot)) *)
  pos : Value;
  rot : Value
}.

Inductive Geom : Type :=
| Box (mass pos : Value) (dims : list Value) (vispy : sdict Value)
| Sphere (mass pos radius : Value) (vispy : sdict Value)
| Cylinder (mass pos radius length : Value) (vispy : sdict Value).

Definition zeros (n : nat) : Array := Vec (repeat f0 n).
Definition identity_quat : Value := VArr (Vec [f1; f0; f0; f0]).
Definition zero_pos : Value := VArr (Vec [f0; f0; f0]).

(** [jnp.atleast_1d(v)], a 1-dimensional array given by its items; a
    string is no array. *)
Definition atleast_1d (v : Value) : result (list F) :=
  match v with
  | VStr _ => Err TypeError
  | VArr (Scalar x) => Ok [x]
  | VArr (Vec xs) => Ok xs
  end.

(** [v[i]] for a literal index: a 0-dimensional array cannot be indexed,
    a 1-dimensional array clamps the index, a string raises out of
    range. *)
Definition index_value (v : Value) (i : nat) : result Value :=
  match v with
  | VStr s =>
      match String.get i s with
      | Some c => Ok (VStr (String c EmptyString))
      | None => Err IndexError
      end
  | VArr (Scalar _) => Err IndexError
  | VArr (Vec xs) =>
      match nth_error xs (Nat.min i (List.length xs - 1)) with
      | Some x => Ok (VArr (Scalar x))
      | None => Err IndexError
      end
  end.

(** [*dim]: the items of a string or of a 1-dimensional array. *)
Definition unpack (v : Value) : result (list Value) :=
  match v with
  | VStr s => Ok (map (fun c => VStr (String c EmptyString)) (list_ascii_of_string s))
  | VArr (Scalar _) => Err TypeError
  | VArr (Vec xs) => Ok (map (fun x => VArr (Scalar x)) xs)
  end.

(** [geom_map[type](m, pos, dim, vispy)] *)
Definition geom_map (type : Value) : result (Value -> Value -> Value -> sdict Value -> result Geom) :=
  match type with
  | VArr _ => Err TypeError
  | VStr s =>
      if String.eqb s "box" then
        Ok (fun m pos dim vispy =>
              (dims <- unpack dim ;; Ok (Box m pos dims vispy))%result)
      else if String.eqb s "sphere" then
        Ok (fun m pos dim vispy =>
              (r <- index_value dim 0 ;; Ok (Sphere m pos r vispy))%result)
      else if String.eqb s "cylinder" then
        Ok (fun m pos dim vispy =>
              (r <- index_value dim 0 ;;
               l <- index_value dim 1 ;;
               Ok (Cylinder m pos r l vispy))%result)
      else Err (KeyError s)
  end.

(** One turn of the loop over [body.findall("geom")]. *)
Definition make_geom (g_attr : sdict Value) : result Geom :=
  (type <- getitem g_attr "type" ;;
   make <- geom_map type ;;
   m <- getitem g_attr "mass" ;;
   p <- getitem g_attr "pos" ;;
   dim <- getitem g_attr "dim" ;;
   make m p dim (_vispy_subdict g_attr))%result.

Fixpoint make_geoms (geom_subtrees : list Element) : result (list Geom) :=
  match geom_subtrees with
  | [] => Ok []
  | geom_subtree :: rest =>
      (geom <- make_geom (attrib geom_subtree) ;;
       link_geoms <- make_geoms rest ;;
       Ok (geom :: link_geoms))%result
  end.

(** [QD_WIDTHS[joint]] *)
Definition qd_width (joint : Value) : result nat :=
  match joint with
  | VArr _ => Err TypeError
  | VStr s => getitem QD_WIDTHS s
  end.

(** Lines 112-118: the orientation of a body. *)
Definition orientation (attr : sdict Value) : result Value :=
  match sget attr "quat" with
  | Some rot =>
      (assert_at ConflictingOrientation (negb (smem attr "euler")) ;;; Ok rot)%result
  | None =>
      match sget attr "euler" with
      | Some euler => quat_euler_deg2rad euler
      | None => Ok identity_quat
      end
  end.

(** *** The dicts of [load_sys_from_str] and the counter that
    process_body shares with its recursive calls *)
Record Store : Type := mkStore {
  global_link_idx : Z;
  links : idict Link;
  link_parents : idict Z;
  link_names : idict Value;
  link_types : idict Value;
  geoms : idict (list Geom);
  armatures : idict (list F);
  dampings : idict (list F)
}.

Definition empty_store : Store := mkStore (-1) [] [] [] [] [] [] [].

(** Code that reads and writes the store and may raise. *)
Definition M (A : Type) : Type := Store -> result (A * Store).

Definition ret {A} (a : A) : M A := fun s => Ok (a, s).
Definition bind {A B} (m : M A) (k : A -> M B) : M B :=
  fun s => match m s with
           | Ok (a, s') => k a s'
           | Err e => Err e
           end.
Definition lift {A} (r : result A) : M A :=
  fun s => match r with Ok a => Ok (a, s) | Err e => Err e end.
Definition modify (f : Store -> Store) : M unit := fun s => Ok (tt, f s).

Notation "x <- c ;; k" := (bind c (fun x => k))
  (at level 61, c at next level, right associativity) : store_scope.
Notation "c ;;; k" := (bind c (fun _ => k))
  (at level 61, right associativity) : store_scope.

(** [global_link_idx += 1; current_link_idx = global_link_idx] *)
Definition next_link_idx : M Z :=
  fun s =>
    let idx := (global_link_idx s + 1)%Z in
    Ok (idx, mkStore idx (links s) (link_parents s) (link_names s) (link_types s)
                     (geoms s) (armatures s) (dampings s)).

Definition set_link (i : Z) (v : Link) (s : Store) : Store :=
  mkStore (global_link_idx s) (iset (links s) i v) (link_parents s) (link_names s)
          (link_types s) (geoms s) (armatures s) (dampings s).
Definition set_link_parent (i : Z) (v : Z) (s : Store) : Store :=
  mkStore (global_link_idx s) (links s) (iset (link_parents s) i v) (link_names s)
          (link_types s) (geoms s) (armatures s) (dampings s).
Definition set_link_name (i : Z) (v : Value) (s : Store) : Store :=
  mkStore (global_link_idx s) (links s) (link_parents s) (iset (link_names s) i v)
          (link_types s) (geoms s) (armatures s) (dampings s).
Definition set_link_type (i : Z) (v : Value) (s : Store) : Store :=
  mkStore (global_link_idx s) (links s) (link_parents s) (link_names s)
          (iset (link_types s) i v) (geoms s) (armatures s) (dampings s).
Definition set_geoms (i : Z) (v : list Geom) (s : Store) : Store :=
  mkStore (global_link_idx s) (links s) (link_parents s) (link_names s)
          (link_types s) (iset (geoms s) i v) (armatures s) (dampings s).
Definition set_armature (i : Z) (v : list F) (s : Store) : Store :=
  mkStore (global_link_idx s) (links s) (link_parents s) (link_names s)
          (link_types s) (geoms s) (iset (armatures s) i v) (dampings s).
Definition set_damping (i : Z) (v : list F) (s : Store) : Store :=
  mkStore (global_link_idx s) (links s) (link_parents s) (link_names s)
          (link_types s) (geoms s) (armatures s) (iset (dampings s) i v).

(** The loop [for subbodies in e.findall("body"): f(subbodies)], run
    over the child elements of [e]. *)
Definition for_bodies (f : Element -> M unit) : list Element -> M unit :=
  fix loop (elements : list Element) : M unit :=
    match elements with
    | [] => ret tt
    | e :: rest =>
        ((if String.eqb (tag e) "body" then f e else ret tt) ;;; loop rest)%store
    end.

(** *** process_body *)
Fixpoint process_body (body : Element) (parent : Z) {struct body} : M unit :=
  match body with
  | Node _ attr subelements =>
      (current_link_idx <- next_link_idx ;;
       modify (set_link_parent current_link_idx parent) ;;;
       joint <- lift (getitem attr "joint") ;;
       modify (set_link_type current_link_idx joint) ;;;
       name <- lift (getitem attr "name") ;;
       modify (set_link_name current_link_idx name) ;;;
       let pos := dict_get_default String.eqb attr "pos" zero_pos in
       rot <- lift (orientation attr) ;;
       modify (set_link current_link_idx (mkLink pos rot)) ;;;
       qd_size <- lift (qd_width joint) ;;
       let damping := dict_get_default String.eqb attr "damping" (VArr (zeros qd_size)) in
       let armature := dict_get_default String.eqb attr "armature" (VArr (zeros qd_size)) in
       arm <- lift (atleast_1d armature) ;;
       modify (set_armature current_link_idx arm) ;;;
       damp <- lift (atleast_1d damping) ;;
       modify (set_damping current_link_idx damp) ;;;
       link_geoms <- lift (make_geoms (findall "geom" body)) ;;
       modify (set_geoms current_link_idx link_geoms) ;;;
       for_bodies (fun subbodies => process_body subbodies current_link_idx)
                  subelements)%store
  end.

(** *** assert_order_then_to_list *)
Definition assert_order_then_to_list {V} (d : idict V) : result (list V) :=
  (assert_at NonContiguousIds
     (if list_eq_dec Z.eq_dec (keys d) (range (List.length d)) then true else false) ;;;
   Ok (values d))%result.

(** [jnp.concatenate] of 1-dimensional arrays. *)
Definition concatenate (arrays : list (list F)) : list F := concat arrays.

(** The arguments of [base.System(...)], which is what
    [x_xy.io.parse_system] receives. *)
Record System : Type := mkSystem {
  sys_link_parents : list Z;
  sys_links : list Link;
  sys_link_types : list Value;
  sys_link_damping : list F;
  sys_link_armature : list F;
  sys_dt : Value;
  sys_geoms : list (list Geom);
  sys_gravity : Value;
  sys_link_names : list Value
}.

(** Lines 151-171: from the dicts to the system.  [links[0]] raises on
    an empty list.  Modelled from the spec: [base.Link.batch] is not in
    this module; the flattener "performs no further validation beyond
    the contiguity check" and yields the transforms as a sequence
    indexed by link id. *)
Definition flatten (options : sdict Value) (s : Store) : result System :=
  (ls <- assert_order_then_to_list (links s) ;;
   match ls with [] => Err IndexError | _ :: _ => Ok tt end ;;;
   ds <- assert_order_then_to_list (dampings s) ;;
   ars <- assert_order_then_to_list (armatures s) ;;
   ps <- assert_order_then_to_list (link_parents s) ;;
   ts <- assert_order_then_to_list (link_types s) ;;
   dt <- getitem options "dt" ;;
   gs <- assert_order_then_to_list (geoms s) ;;
   gravity <- getitem options "gravity" ;;
   ns <- assert_order_then_to_list (link_names s) ;;
   Ok (mkSystem ps ls ts (concatenate ds) (concatenate ars) dt gs gravity ns))%result.

(** *** load_sys_from_str *)

(** Lines 84-89: the lookups of the singleton nodes and the schema
    check.  [.attrib] of a missing [options] node is an attribute access
    on [None]. *)
Definition checks (xml_tree : Element)
  : result (sdict Value * DefaultAttrs * option Element) :=
  (options_el <- _find_assert_unique xml_tree "options" [] ;;
   options <- match options_el with
              | None => Err AttributeError
              | Some e => Ok (attrib e)
              end ;;
   default_attrs <- _build_defaults_attributes xml_tree ;;
   worldbody <- _find_assert_unique xml_tree "worldbody" [] ;;
   _assert_all_tags_attrs_valid xml_tree ;;;
   Ok (options, default_attrs, worldbody))%result.

(** Lines 90-91.  [options], [default_attrs] and [worldbody] are
    references into [xml_tree]: once [_convert_attrs_to_arrays] has
    rewritten the tree in place they denote the converted elements.
    [_mix_in_defaults] then rewrites the worldbody; [iter] on a missing
    worldbody is an attribute access on [None]. *)
Definition resolve (refs : sdict Value * DefaultAttrs * option Element)
  : result (sdict Value * Element) :=
  let '(options, default_attrs, worldbody) := refs in
  let options := convert_attrib options in
  let default_attrs := mkDefaults (convert_attrib (geom_defaults default_attrs))
                                  (convert_attrib (body_defaults default_attrs)) in
  match option_map _convert_attrs_to_arrays worldbody with
  | None => Err AttributeError
  | Some worldbody => Ok (options, _mix_in_defaults default_attrs worldbody)
  end.

(** Lines 93-171: the traversal from fresh dicts, then the flattening. *)
Definition build (options : sdict Value) (worldbody : Element) : result System :=
  match for_bodies (fun body => process_body body (-1)) (children worldbody)
                   empty_store with
  | Err e => Err e
  | Ok (_, s) => flatten options s
  end.

(** Lines 84-91: the options and the worldbody that the traversal
    reads. *)
Definition prepare (xml_tree : Element) : result (sdict Value * Element) :=
  (refs <- checks xml_tree ;; resolve refs)%result.

Definition load_sys_from_str (xml_tree : Element) : result System :=
  (resolved <- prepare xml_tree ;;
   build (fst resolved) (snd resolved))%result.

(** ** What the traversal computes

    A functional account of process_body, proved below to agree with
    it: the record one call makes for its own body, and the records of a
    whole subtree in the order of the calls. *)
Record Entry : Type := mkEntry {
  e_parent : Z;
  e_type : Value;
  e_name : Value;
  e_link : Link;
  e_armature : list F;
  e_damping : list F;
  e_geoms : list Geom
}.

Definition body_entry (body : Element) (parent : Z) : result Entry :=
  let attr := attrib body in
  (joint <- getitem attr "joint" ;;
   name <- getitem attr "name" ;;
   rot <- orientation attr ;;
   qd_size <- qd_width joint ;;
   arm <- atleast_1d (dict_get_default String.eqb attr "armature" (VArr (zeros qd_size))) ;;
   damp <- atleast_1d (dict_get_default String.eqb attr "damping" (VArr (zeros qd_size))) ;;
   link_geoms <- make_geoms (findall "geom" body) ;;
   Ok (mkEntry parent joint name
               (mkLink (dict_get_default String.eqb attr "pos" zero_pos) rot)
               arm damp link_geoms))%result.

Definition walk_bodies (f : Element -> Z -> result (list Entry))
  : list Element -> Z -> result (list Entry) :=
  fix loop (elements : list Element) (next : Z) : result (list Entry) :=
    match elements with
    | [] => Ok []
    | e :: rest =>
        if String.eqb (tag e) "body" then
          (l1 <- f e next ;;
           l2 <- loop rest (next + Z.of_nat (List.length l1))%Z ;;
           Ok (l1 ++ l2))%result
        else loop rest next
    end.

(** The records of [body] and of the bodies below it when [body] gets
    the id [idx]. *)
Fixpoint walk (body : Element) (parent idx : Z) {struct body} : result (list Entry) :=
  match body with
  | Node _ _ subelements =>
      (e <- body_entry body parent ;;
       rest <- walk_bodies (fun c next => walk c idx next) subelements (idx + 1)%Z ;;
       Ok (e :: rest))%result
  end.

(** The store after one more link has been recorded. *)
Definition record (e : Entry) (s : Store) : Store :=
  let i := (global_link_idx s + 1)%Z in
  mkStore i
          (links s ++ [(i, e_link e)])
          (link_parents s ++ [(i, e_parent e)])
          (link_names s ++ [(i, e_name e)])
          (link_types s ++ [(i, e_type e)])
          (geoms s ++ [(i, e_geoms e)])
          (armatures s ++ [(i, e_armature e)])
          (dampings s ++ [(i, e_damping e)]).

Definition push (s : Store) (es : list Entry) : Store :=
  fold_left (fun s e => record e s) es s.

Definition push_result (s : Store) (r : result (list Entry))
  : result (unit * Store) :=
  match r with
  | Ok es => Ok (tt, push s es)
  | Err e => Err e
  end.

(** The system made of the records [es], in their order. *)
Definition system_of (options : sdict Value) (es : list Entry) : result System :=
  match es with
  | [] => Err IndexError
  | _ :: _ =>
      (dt <- getitem options "dt" ;;
       gravity <- getitem options "gravity" ;;
       Ok (mkSystem (map e_parent es) (map e_link es) (map e_type es)
                    (concat (map e_damping es)) (concat (map e_armature es))
                    dt (map e_geoms es) gravity (map e_name es)))%result
  end.

(** Every dict holds exactly the ids handed out so far, in order. *)
Definition ids_upto (s : Store) : list Z :=
  range (Z.to_nat (global_link_idx s + 1)).

Record store_wf (s : Store) : Prop := mkWf {
  wf_idx : (-1 <= global_link_idx s)%Z;
  wf_links : keys (links s) = ids_upto s;
  wf_parents : keys (link_parents s) = ids_upto s;
  wf_names : keys (link_names s) = ids_upto s;
  wf_types : keys (link_types s) = ids_upto s;
  wf_geoms : keys (geoms s) = ids_upto s;
  wf_armatures : keys (armatures s) = ids_upto s;
  wf_dampings : keys (dampings s) = ids_upto s
}.

(** The bodies process_body is called on, in the order of the calls:
    an element and the ["body"] children below it, depth first. *)
Fixpoint bodies_under (body : Element) : list Element :=
  match body with
  | Node _ _ cs =>
      body :: flat_map (fun c => if String.eqb (tag c) "body"
                                 then bodies_under c else []) cs
  end.

Definition bodies_of (elements : list Element) : list Element :=
  flat_map (fun c => if String.eqb (tag c) "body" then bodies_under c else [])
           elements.

(** The degrees of freedom of a joint type, and of a body's joint. *)
Definition width (joint : Value) : nat :=
  match qd_width joint with
  | Ok n => n
  | Err _ => 0%nat
  end.

Definition dof (body : Element) : nat :=
  match sget (attrib body) "joint" with
  | Some joint => width joint
  | None => 0%nat
  end.

(** The number of items of an attribute value seen as an array. *)
Definition value_size (v : Value) : nat :=
  match v with
  | VStr _ => 0%nat
  | VArr (Scalar _) => 1%nat
  | VArr (Vec xs) => List.length xs
  end.

(** The length of the vector process_body records for the attribute
    [key] ("damping" or "armature"): the size of the attribute where the
    body has it, the degrees of freedom where it has not. *)
Definition recorded_size (key : string) (body : Element) : nat :=
  match sget (attrib body) key with
  | Some v => value_size v
  | None => dof body
  end.

Definition sum (l : list nat) : nat := fold_right Nat.add 0%nat l.

(** What [_convert_attrs_to_arrays] makes of one value: an array when
    every piece between single spaces is a float literal, the value
    itself otherwise. *)
Inductive converted : Value -> Value -> Prop :=
| conv_numbers s xs :
    Forall2 (fun piece x => float piece = Some x) (split_on " " s) xs ->
    converted (VStr s) (VArr (squeeze xs))
| conv_text s :
    Exists (fun piece => float piece = None) (split_on " " s) ->
    converted (VStr s) (VStr s)
| conv_array a :
    converted (VArr a) (VArr a).

(** The keys of [geom_map]. *)
Definition known_shape (shape : string) : Prop :=
  shape = "box" \/ shape = "sphere" \/ shape = "cylinder".

(** The subtree [<defaults/>]. *)
Definition empty_defaults : Element := Node "defaults" [] [].

(** Following the words of the specification: a value "consisting of
    one or more whitespace-separated floating-point literals". *)
Definition is_whitespace (c : ascii) : bool :=
  let n := nat_of_ascii c in
  (n =? 32)%nat || (n =? 9)%nat || (n =? 10)%nat || (n =? 13)%nat.

Fixpoint blank_whitespace (s : string) : string :=
  match s with
  | EmptyString => EmptyString
  | String c rest =>
      String (if is_whitespace c then " "%char else c) (blank_whitespace rest)
  end.

Definition words (s : string) : list string :=
  filter (fun w => negb (String.eqb w EmptyString))
         (split_on " " (blank_whitespace s)).

Definition spec_whitespace_separated_floats (s : string) : bool :=
  match words s with
  | [] => false
  | ws => forallb (fun w => match float w with Some _ => true | None => false end) ws
  end.

(** The key of [geom_map] that a geometry was built by. *)
Definition shape_of (g : Geom) : string :=
  match g with
  | Box _ _ _ _ => "box"
  | Sphere _ _ _ _ => "sphere"
  | Cylinder _ _ _ _ _ => "cylinder"
  end.

(** The element that lines 90-91 make of an element of the document:
    its attributes converted, then the defaults (converted as well)
    mixed in. *)
Definition prepared (default_attrs : DefaultAttrs) (e : Element) : Element :=
  _mix_in_defaults
    (mkDefaults (convert_attrib (geom_defaults default_attrs))
                (convert_attrib (body_defaults default_attrs)))
    (_convert_attrs_to_arrays e).

End Loader.

Notation "x <- c ;; k" := (bind c (fun x => k))
  (at level 61, c at next level, right associativity) : store_scope.
Notation "c ;;; k" := (bind c (fun _ => k))
  (at level 61, right associativity) : store_scope.

Arguments Scalar {F} x.
Arguments Vec {F} xs.
Arguments VStr {F} s.
Arguments VArr {F} a.
Arguments Node {F} tag attrib children.

(** ** A concrete reading of the collaborators, for running the loader

    Plain decimal literals ([-12], [0.1], [3.]) read as rationals stand in
    for [float]; a free joint has six degrees of freedom and a hinge one;
    the example documents carry no [euler] attribute. *)
Module Example.

Definition digit (c : ascii) : option Z :=
  let n := nat_of_ascii c in
  if (48 <=? n)%nat && (n <=? 57)%nat then Some (Z.of_nat (n - 48)) else None.

(** The digits at the head of [s]: their value after [acc], how many
    there are, and what follows them. *)
Fixpoint digits (s : string) (acc : Z) (count : nat) : Z * nat * string :=
  match s with
  | EmptyString => (acc, count, s)
  | String c rest =>
      match digit c with
      | Some d => digits rest (10 * acc + d)%Z (S count)
      | None => (acc, count, s)
      end
  end.

Definition unsigned (s : string) : option Q :=
  let '(n1, c1, rest) := digits s 0%Z 0%nat in
  match rest with
  | EmptyString => if (0 <? c1)%nat then Some (Qmake n1 1) else None
  | String c rest' =>
      if Ascii.eqb c "." then
        let '(n2, c2, rest2) := digits rest' n1 0%nat in
        match rest2 with
        | EmptyString =>
            if (0 <? c1 + c2)%nat
            then Some (Qred (Qmake n2 (Z.to_pos (10 ^ Z.of_nat c2))))
            else None
        | String _ _ => None
        end
      else None
  end.

Definition float (s : string) : option Q :=
  match s with
  | String "-" rest => option_map Qopp (unsigned rest)
  | String "+" rest => unsigned rest
  | _ => unsigned s
  end.

Definition QD_WIDTHS : sdict nat := [("free", 6%nat); ("hinge", 1%nat)].

Definition quat_euler_deg2rad (v : Value Q) : result (Value Q) := Err TypeError.

Definition load : Element Q -> result (System Q) :=
  load_sys_from_str float (Qmake 0 1) (Qmake 1 1) QD_WIDTHS quat_euler_deg2rad.

Definition str (s : string) : Value Q := VStr s.

(** *** Documents *)

Definition options : Element Q :=
  Node "options" [("gravity", str "0 0 9.81"); ("dt", str "0.01")] [].

Definition document (children : list (Element Q)) : Element Q :=
  Node "x_xy" [("model", str "example")] children.

(** The scenario of the specification: body a (free) with a child b
    (hinge) that owns one sphere of dim 0.1. *)
Definition scenario : Element Q :=
  document
    [options;
     Node "worldbody" []
       [Node "body" [("name", str "a"); ("joint", str "free"); ("pos", str "0 0 1")]
          [Node "body" [("name", str "b"); ("joint", str "hinge")]
             [Node "geom" [("type", str "sphere"); ("mass", str "1.0");
                           ("pos", str "0 0 0"); ("dim", str "0.1")] []]]]].

(** Four links: a with the children b and c, then d. *)
Definition four_links_worldbody : Element Q :=
  Node "worldbody" []
    [Node "body" [("name", str "a"); ("joint", str "free"); ("pos", str "0 0 1")]
       [Node "body" [("name", str "b"); ("joint", str "hinge")]
          [Node "geom" [("type", str "box"); ("mass", str "1.0");
                        ("pos", str "0 0 0"); ("dim", str "1 0.25 0.2");
                        ("vispy_color", str "1 0 0")] []];
        Node "body" [("name", str "c"); ("joint", str "hinge")] []];
     Node "body" [("name", str "d"); ("joint", str "free")] []].

Definition four_links : Element Q := document [options; four_links_worldbody].

(** A free joint with an explicit one-entry damping. *)
Definition explicit_damping : Element Q :=
  document
    [options;
     Node "worldbody" []
       [Node "body" [("name", str "a"); ("joint", str "free");
                     ("damping", str "0.5")] []]].

(** The default damping 0.1 for bodies; a has none of its own, b has
    0.5. *)
Definition default_damping : Element Q :=
  document
    [options;
     Node "defaults" [] [Node "body" [("damping", str "0.1")] []];
     Node "worldbody" []
       [Node "body" [("name", str "a"); ("joint", str "free")] [];
        Node "body" [("name", str "b"); ("joint", str "hinge");
                     ("damping", str "0.5")] []]].



(** An unknown tag, with and without the options node. *)
Definition motor : Element Q :=
  document
    [options;
     Node "worldbody" [] [Node "body" [("name", str "a"); ("joint", str "free")] []];
     Node "motor" [] []].

Definition motor_without_options : Element Q :=
  document [Node "motor" [] []].

(** A geom without attributes directly below the worldbody. *)
Definition stray_geom : Element Q :=
  document
    [options;
     Node "worldbody" []
       [Node "geom" [] [];
        Node "body" [("name", str "a"); ("joint", str "free")] []]].

(** A position written with two spaces after the first number. *)
Definition wide_spacing : Element Q :=
  Node "body" [("name", str "a"); ("pos", str "0  0 1")] [].

End Example.

(** * Properties *)

(** ** Dicts *)

Lemma sget_sset_same V (d : sdict V) k v : sget (sset d k v) k = Some v.
Proof.
  unfold sget, sset.
  induction d as [|[k' v'] d IH]; simpl.
  - now rewrite String.eqb_refl.
  - destruct (String.eqb k' k) eqn:E; simpl; rewrite E; auto.
Qed.

Lemma sget_sset_other V (d : sdict V) k k' v :
  k' <> k -> sget (sset d k' v) k = sget d k.
Proof.
  intros Hne. unfold sget, sset.
  induction d as [|[k0 v0] d IH]; simpl.
  - apply String.eqb_neq in Hne. now rewrite Hne.
  - destruct (String.eqb k0 k') eqn:E; simpl.
    + apply String.eqb_eq in E. subst k0.
      apply String.eqb_neq in Hne. now rewrite Hne.
    + now rewrite IH.
Qed.

Lemma sget_in_keys V (d : sdict V) k : In k (keys d) -> sget d k <> None.
Proof.
  unfold sget, keys.
  induction d as [|[k' v'] d IH]; simpl; [tauto|].
  intros [->|Hin].
  - now rewrite String.eqb_refl.
  - destruct (String.eqb k' k); [discriminate|auto].
Qed.

Lemma sget_not_in_keys V (d : sdict V) k : ~ In k (keys d) -> sget d k = None.
Proof.
  unfold sget, keys.
  induction d as [|[k' v'] d IH]; simpl; [tauto|].
  intros Hn. destruct (String.eqb k' k) eqn:E.
  - apply String.eqb_eq in E. tauto.
  - apply IH. tauto.
Qed.

Lemma smem_sget V (d : sdict V) k : smem d k = true <-> sget d k <> None.
Proof.
  unfold smem, dict_mem, sget.
  destruct (dict_get String.eqb d k); split; congruence.
Qed.

(** ** Elements *)

Section ElementInduction.
Variable F : Type.
Variable P : Element F -> Prop.
Hypothesis step : forall t a cs, Forall P cs -> P (Node t a cs).

Lemma Element_forall_ind : forall e, P e.
Proof.
  fix IH 1. intros [t a cs]. apply step.
  induction cs as [|c cs IHcs]; constructor; [apply IH | exact IHcs].
Qed.
End ElementInduction.

(** ** The defaults merge *)

Section MixIn.
Variable F : Type.
Implicit Types attr d : sdict (Value F).

Lemma mix_keys_keep d ks attr k v :
  sget attr k = Some v -> sget (fold_left (mix_step d) ks attr) k = Some v.
Proof.
  revert attr. induction ks as [|k' ks IH]; simpl; intros attr H; [exact H|].
  apply IH. unfold mix_step.
  destruct (smem attr k') eqn:M; [exact H|].
  destruct (sget d k') eqn:D; [|exact H].
  rewrite sget_sset_other; [exact H|].
  intros ->. unfold smem, dict_mem in M. unfold sget in H. now rewrite H in M.
Qed.

Lemma mix_keys_fill d ks attr k :
  sget attr k = None ->
  sget (fold_left (mix_step d) ks attr) k = if str_in k ks then sget d k else None.
Proof.
  revert attr. induction ks as [|k' ks IH]; simpl; intros attr H; [exact H|].
  assert (M : smem attr k = false)
    by (unfold smem, dict_mem; unfold sget in H; now rewrite H).
  destruct (String.eqb k k') eqn:E; simpl.
  - apply String.eqb_eq in E. subst k'. unfold mix_step at 2. rewrite M.
    destruct (sget d k) eqn:D.
    + apply mix_keys_keep. apply sget_sset_same.
    + rewrite IH by exact H. now destruct (str_in k ks).
  - apply IH. unfold mix_step.
    destruct (smem attr k'); [exact H|].
    destruct (sget d k'); [|exact H].
    rewrite sget_sset_other; [exact H|].
    intros ->. now rewrite String.eqb_refl in E.
Qed.

Lemma str_in_In k ks : str_in k ks = true <-> In k ks.
Proof.
  unfold str_in. rewrite existsb_exists. split.
  - intros (x & Hin & E). apply String.eqb_eq in E. now subst.
  - intros Hin. exists k. split; [exact Hin|apply String.eqb_refl].
Qed.

Lemma mix_attrib_keep attr d k v :
  sget attr k = Some v -> sget (mix_attrib attr d) k = Some v.
Proof. apply mix_keys_keep. Qed.

Lemma mix_attrib_fill attr d k :
  sget attr k = None -> sget (mix_attrib attr d) k = sget d k.
Proof.
  intros H. unfold mix_attrib. rewrite mix_keys_fill by exact H.
  destruct (str_in k (keys d)) eqn:E; [reflexivity|].
  symmetry. apply sget_not_in_keys. rewrite <- str_in_In. congruence.
Qed.

Lemma mix_keys_noop d ks attr :
  (forall k, In k ks -> smem attr k = true) -> fold_left (mix_step d) ks attr = attr.
Proof.
  induction ks as [|k ks IH]; simpl; intros H; [reflexivity|].
  unfold mix_step at 2. rewrite (H k) by now left.
  apply IH. intros k' Hin. apply H. now right.
Qed.

Lemma mix_attrib_idempotent attr d :
  mix_attrib (mix_attrib attr d) d = mix_attrib attr d.
Proof.
  unfold mix_attrib at 1. apply mix_keys_noop.
  intros k Hin. apply smem_sget.
  destruct (sget attr k) eqn:E.
  - rewrite (mix_attrib_keep _ d _ E). discriminate.
  - rewrite (mix_attrib_fill _ d _ E). now apply sget_in_keys.
Qed.

Lemma mix_node_idempotent (dflt : DefaultAttrs F) t attr :
  mix_node dflt t (mix_node dflt t attr) = mix_node dflt t attr.
Proof.
  unfold mix_node.
  destruct (String.eqb t "body"); [apply mix_attrib_idempotent|].
  destruct (String.eqb t "geom"); [apply mix_attrib_idempotent|reflexivity].
Qed.

Lemma mix_in_defaults_idempotent (dflt : DefaultAttrs F) w :
  _mix_in_defaults dflt (_mix_in_defaults dflt w) = _mix_in_defaults dflt w.
Proof.
  induction w as [t a cs IH] using Element_forall_ind. simpl.
  rewrite mix_node_idempotent. f_equal.
  rewrite map_map. apply map_ext_in.
  intros c Hin. rewrite Forall_forall in IH. now apply IH.
Qed.

(** C8.  The defaults merge keeps every attribute a node already has,
    gives a node the default for each attribute it lacks, touches only
    body and geom nodes, and merging the same defaults a second time
    changes nothing. *)
Theorem mix_in_defaults_fills_absent_only :
  (forall attr d k v,
      sget attr k = Some v -> sget (mix_attrib attr d) k = Some v) /\
  (forall attr d k,
      sget attr k = None -> sget (mix_attrib attr d) k = sget d k) /\
  (forall (dflt : DefaultAttrs F) t attr,
      t <> "body" -> t <> "geom" -> mix_node dflt t attr = attr) /\
  (forall (dflt : DefaultAttrs F) w,
      _mix_in_defaults dflt (_mix_in_defaults dflt w) = _mix_in_defaults dflt w).
Proof.
  split; [exact mix_attrib_keep|].
  split; [exact mix_attrib_fill|].
  split; [|exact mix_in_defaults_idempotent].
  intros dflt t attr Hb Hg. unfold mix_node.
  apply String.eqb_neq in Hb. apply String.eqb_neq in Hg.
  now rewrite Hb, Hg.
Qed.
End MixIn.

(** ** Numeric coercion *)

Section Coercion.
Variable F : Type.
Variable float : string -> option F.

Lemma floats_Some pieces xs :
  floats float pieces = Some xs ->
  Forall2 (fun piece x => float piece = Some x) pieces xs.
Proof.
  revert xs. induction pieces as [|p ps IH]; simpl; intros xs H.
  - injection H as <-. constructor.
  - destruct (float p) eqn:E; [|discriminate].
    destruct (floats float ps); [|discriminate].
    injection H as <-. constructor; auto.
Qed.

Lemma floats_None pieces :
  floats float pieces = None -> Exists (fun piece => float piece = None) pieces.
Proof.
  induction pieces as [|p ps IH]; simpl; intros H; [discriminate|].
  destruct (float p) eqn:E; [|now left].
  right. apply IH. now destruct (floats float ps).
Qed.

Lemma convert_value_converted v : converted float v (convert_value float v).
Proof.
  destruct v as [s|a]; simpl; [|constructor].
  destruct (floats float (split_on " " s)) eqn:E.
  - constructor. now apply floats_Some.
  - constructor. now apply floats_None.
Qed.

Lemma iter_convert xml_tree :
  iter (_convert_attrs_to_arrays float xml_tree)
  = map (_convert_attrs_to_arrays float) (iter xml_tree).
Proof.
  induction xml_tree as [t a cs IH] using Element_forall_ind.
  simpl. f_equal.
  induction IH as [|c cs Hc _ IHcs]; simpl; [reflexivity|].
  now rewrite map_app, Hc, IHcs.
Qed.

(** C7, as the code has it.  Numeric coercion visits every element of
    the document and keeps tags and attribute names; a value whose
    pieces between single spaces are all float literals becomes an
    array, 0-dimensional for one literal and 1-dimensional for more,
    and every other value stays as it is. *)
Theorem convert_attrs_splits_on_single_spaces :
  forall xml_tree,
    Forall2 (fun e e' =>
               tag e' = tag e /\
               Forall2 (fun kv kv' =>
                          fst kv' = fst kv /\ converted float (snd kv) (snd kv'))
                       (attrib e) (attrib e'))
            (iter xml_tree) (iter (_convert_attrs_to_arrays float xml_tree))
    /\ (forall x : F, squeeze [x] = Scalar x)
    /\ (forall (x y : F) l, squeeze (x :: y :: l) = Vec (x :: y :: l)).
Proof.
  intros xml_tree. split; [|split; reflexivity].
  rewrite iter_convert.
  induction (iter xml_tree) as [|[t a cs] l IH]; simpl; constructor; [|exact IH].
  split; [reflexivity|]. simpl.
  induction a as [|[k v] a IHa]; simpl; constructor; [|exact IHa].
  split; [reflexivity|]. apply convert_value_converted.
Qed.
End Coercion.

(** ** The checks that come first *)

Section Checks.
Variable F : Type.
Variable float : string -> option F.
Variables f0 f1 : F.
Variable QD_WIDTHS : sdict nat.
Variable quat_euler_deg2rad : Value F -> result (Value F).
Implicit Types e : Element F.

Local Abbreviation load :=
  (load_sys_from_str float f0 f1 QD_WIDTHS quat_euler_deg2rad).

Lemma node_valid_cases e :
  node_valid e = Ok tt \/ node_valid e = Err (AssertionError SchemaViolation).
Proof.
  unfold node_valid, assert_at.
  destruct (str_in (tag e) (keys valid_attrs)); simpl; [|now right].
  destruct (forallb _ _); auto.
Qed.

Lemma check_all_app (l l' : list (Element F)) :
  check_all (l ++ l') = (check_all l ;;; check_all l')%result.
Proof.
  induction l as [|e l IH]; simpl; [reflexivity|].
  destruct (node_valid e) as [[]|err]; simpl; auto.
Qed.

Lemma check_all_unknown_tag (l : list (Element F)) e :
  In e l -> str_in (tag e) (keys valid_attrs) = false ->
  check_all l = Err (AssertionError SchemaViolation).
Proof.
  intros Hin Hbad. induction l as [|e' l IH]; simpl; [contradiction|].
  destruct Hin as [->|Hin].
  - unfold node_valid. now rewrite Hbad.
  - destruct (node_valid_cases e') as [-> | ->]; simpl; auto.
Qed.

(** C6, as the code has it.  When the lookups of the singleton nodes
    pass (one options node, no duplicate among defaults, its geom and
    body children and worldbody), a tag outside the allowed set anywhere
    in the document makes the load fail with the schema assertion, and
    it is the checks of lines 84-89 that fail: coercion, defaults merge
    and traversal are not reached. *)
Theorem unknown_tag_is_schema_violation :
  forall xml_tree options_el default_attrs worldbody e,
    _find_assert_unique xml_tree "options" [] = Ok (Some options_el) ->
    _build_defaults_attributes xml_tree = Ok default_attrs ->
    _find_assert_unique xml_tree "worldbody" [] = Ok worldbody ->
    In e (iter xml_tree) ->
    str_in (tag e) (keys (@valid_attrs)) = false ->
    checks xml_tree = Err (AssertionError SchemaViolation) /\
    load xml_tree = Err (AssertionError SchemaViolation).
Proof.
  intros xml_tree options_el default_attrs worldbody e Ho Hd Hw Hin Hbad.
  assert (Hc : checks xml_tree = Err (AssertionError SchemaViolation)).
  { unfold checks. rewrite Ho. cbn [rbind]. rewrite Hd. cbn [rbind].
    rewrite Hw. cbn [rbind]. unfold _assert_all_tags_attrs_valid.
    now rewrite (check_all_unknown_tag _ _ Hin Hbad). }
  split; [exact Hc|].
  unfold load_sys_from_str, prepare. now rewrite Hc.
Qed.

(** *** An empty defaults subtree *)

Lemma findall_insert key t a t' a' (l1 l2 : list (Element F)) x :
  String.eqb (tag x) key = false ->
  findall key (Node t a (l1 ++ x :: l2)) = findall key (Node t' a' (l1 ++ l2)).
Proof.
  intros H. unfold findall. simpl. rewrite !filter_app. simpl. now rewrite H.
Qed.

Lemma find_unique_insert key t a (l1 l2 : list (Element F)) x :
  String.eqb (tag x) key = false ->
  _find_assert_unique (Node t a (l1 ++ x :: l2)) key []
  = _find_assert_unique (Node t a (l1 ++ l2)) key [].
Proof.
  intros H. simpl. now rewrite (findall_insert key t a t a l1 l2 x H).
Qed.

Lemma defaults_of_absent (tree : Element F) tg :
  findall "defaults" tree = [] -> defaults_of tree tg = Ok [].
Proof.
  intros H. unfold defaults_of. simpl. now rewrite H.
Qed.

Lemma defaults_of_no_child (tree d : Element F) tg :
  findall "defaults" tree = [d] -> findall tg d = [] -> defaults_of tree tg = Ok [].
Proof.
  intros H H'. unfold defaults_of. simpl. rewrite H. now rewrite H'.
Qed.

Lemma valid_empty_defaults t a (l1 l2 : list (Element F)) :
  _assert_all_tags_attrs_valid (Node t a (l1 ++ empty_defaults F :: l2))
  = _assert_all_tags_attrs_valid (Node t a (l1 ++ l2)).
Proof.
  unfold _assert_all_tags_attrs_valid.
  assert (Hcons : forall x (l : list (Element F)),
             check_all (x :: l) = (node_valid x ;;; check_all l)%result)
    by reflexivity.
  cbn [iter]. rewrite !Hcons, !flat_map_app. cbn [flat_map].
  rewrite !check_all_app.
  change (check_all (iter (empty_defaults F))) with (Ok tt : result unit).
  reflexivity.
Qed.

Lemma findall_empty_defaults t a (l1 l2 : list (Element F)) :
  findall "defaults" (Node t a (l1 ++ l2)) = [] ->
  findall "defaults" (Node t a (l1 ++ empty_defaults F :: l2)) = [empty_defaults F].
Proof.
  unfold findall. cbn [children]. rewrite !filter_app. intros H.
  apply app_eq_nil in H. destruct H as [H1 H2].
  cbn [filter]. rewrite H1. change (String.eqb (tag (empty_defaults F)) "defaults") with true.
  cbn iota. now rewrite H2.
Qed.

Lemma checks_empty_defaults t a (l1 l2 : list (Element F)) :
  findall "defaults" (Node t a (l1 ++ l2)) = [] ->
  checks (Node t a (l1 ++ empty_defaults F :: l2)) = checks (Node t a (l1 ++ l2)).
Proof.
  intros Hnone.
  pose proof (findall_empty_defaults t a l1 l2 Hnone) as Hd.
  unfold checks.
  rewrite (find_unique_insert "options" t a l1 l2 (empty_defaults F) eq_refl).
  rewrite (find_unique_insert "worldbody" t a l1 l2 (empty_defaults F) eq_refl).
  rewrite valid_empty_defaults.
  unfold _build_defaults_attributes.
  rewrite !(defaults_of_absent _ _ Hnone).
  rewrite !(defaults_of_no_child _ _ Hd eq_refl).
  reflexivity.
Qed.

(** C9.  A document without a defaults subtree loads to the same
    result, system or exception, as the document with an empty defaults
    subtree added among the children of the root; a missing defaults
    subtree, or a defaults subtree without a child for a tag, gives the
    empty default set for that tag and raises nothing. *)
Theorem empty_defaults_subtree_is_neutral :
  forall t a (l1 l2 : list (Element F)),
    findall "defaults" (Node t a (l1 ++ l2)) = [] ->
    load (Node t a (l1 ++ empty_defaults F :: l2)) = load (Node t a (l1 ++ l2))
    /\ _build_defaults_attributes (Node t a (l1 ++ l2)) = Ok (mkDefaults [] [])
    /\ _build_defaults_attributes (Node t a (l1 ++ empty_defaults F :: l2))
       = Ok (mkDefaults [] [])
    /\ (forall d tg, findall "defaults" (Node t a (l1 ++ d :: l2)) = [d] ->
                     findall tg d = [] ->
                     defaults_of (Node t a (l1 ++ d :: l2)) tg = Ok []).
Proof.
  intros t a l1 l2 Hnone.
  split; [|split; [|split]].
  - unfold load_sys_from_str, prepare. now rewrite checks_empty_defaults.
  - unfold _build_defaults_attributes. now rewrite !(defaults_of_absent _ _ Hnone).
  - pose proof (findall_empty_defaults t a l1 l2 Hnone) as Hd.
    unfold _build_defaults_attributes.
    now rewrite !(defaults_of_no_child _ _ Hd eq_refl).
  - intros d tg Hd Hc. now apply defaults_of_no_child with (d := d).
Qed.
End Checks.

(** ** The traversal *)

Lemma range_snoc n : range (S n) = range n ++ [Z.of_nat n].
Proof. unfold range. now rewrite seq_S, map_app. Qed.

Lemma range_length n : List.length (range n) = n.
Proof. unfold range. now rewrite length_map, length_seq. Qed.

Lemma in_range k n : In k (range n) -> (0 <= k < Z.of_nat n)%Z.
Proof.
  unfold range. rewrite in_map_iff. intros (i & <- & Hin).
  apply in_seq in Hin. lia.
Qed.

Lemma iset_fresh V (d : idict V) i v :
  ~ In i (keys d) -> iset d i v = d ++ [(i, v)].
Proof.
  unfold iset, keys.
  induction d as [|[k w] d IH]; simpl; intros Hn; [reflexivity|].
  destruct (Z.eqb k i) eqn:E.
  - apply Z.eqb_eq in E. tauto.
  - rewrite IH; tauto.
Qed.

Lemma keys_snoc K V (d : dict K V) k v : keys (d ++ [(k, v)]) = keys d ++ [k].
Proof. unfold keys. now rewrite map_app. Qed.

Section Traversal.
Variable F : Type.
Variables f0 f1 : F.
Variable QD_WIDTHS : sdict nat.
Variable quat_euler_deg2rad : Value F -> result (Value F).
Implicit Types (s : Store F) (body : Element F) (es : list (Entry F)).

Local Abbreviation process_body' :=
  (process_body f0 f1 QD_WIDTHS quat_euler_deg2rad).
Local Abbreviation body_entry' :=
  (body_entry f0 f1 QD_WIDTHS quat_euler_deg2rad).
Local Abbreviation walk' := (walk f0 f1 QD_WIDTHS quat_euler_deg2rad).

Lemma ids_upto_fresh s :
  (-1 <= global_link_idx s)%Z -> ~ In (global_link_idx s + 1)%Z (ids_upto s).
Proof.
  intros Hidx Hin. apply in_range in Hin. lia.
Qed.

Lemma ids_upto_record s e :
  (-1 <= global_link_idx s)%Z ->
  ids_upto (record e s) = ids_upto s ++ [(global_link_idx s + 1)%Z].
Proof.
  intros Hidx. unfold ids_upto. cbn [record global_link_idx].
  replace (Z.to_nat (global_link_idx s + 1 + 1))
    with (S (Z.to_nat (global_link_idx s + 1))) by lia.
  rewrite range_snoc. f_equal. f_equal. lia.
Qed.

Lemma record_wf s e : store_wf s -> store_wf (record e s).
Proof.
  intros [Hidx H1 H2 H3 H4 H5 H6 H7].
  constructor; try (cbn [record global_link_idx]; lia);
    rewrite ids_upto_record by exact Hidx;
    cbn [record links link_parents link_names link_types geoms armatures dampings];
    rewrite keys_snoc; congruence.
Qed.

Lemma push_wf es : forall s, store_wf s -> store_wf (push s es).
Proof.
  induction es as [|e es IH]; intros s H; [exact H|].
  apply IH. now apply record_wf.
Qed.

Lemma push_app es1 es2 s : push s (es1 ++ es2) = push (push s es1) es2.
Proof. apply fold_left_app. Qed.

Lemma push_idx es : forall s,
  global_link_idx (push s es) = (global_link_idx s + Z.of_nat (List.length es))%Z.
Proof.
  induction es as [|e es IH]; intros s; simpl; [lia|].
  rewrite IH. cbn [record global_link_idx]. lia.
Qed.

Lemma process_body_eq t attr subelements parent :
  process_body' (Node t attr subelements) parent
  = (current_link_idx <- next_link_idx (F := F) ;;
     modify (set_link_parent current_link_idx parent) ;;;
     joint <- lift (getitem attr "joint") ;;
     modify (set_link_type current_link_idx joint) ;;;
     name <- lift (getitem attr "name") ;;
     modify (set_link_name current_link_idx name) ;;;
     let pos := dict_get_default String.eqb attr "pos" (zero_pos f0) in
     rot <- lift (orientation f0 f1 quat_euler_deg2rad attr) ;;
     modify (set_link current_link_idx (mkLink pos rot)) ;;;
     qd_size <- lift (qd_width QD_WIDTHS joint) ;;
     let damping := dict_get_default String.eqb attr "damping" (VArr (zeros f0 qd_size)) in
     let armature := dict_get_default String.eqb attr "armature" (VArr (zeros f0 qd_size)) in
     arm <- lift (atleast_1d armature) ;;
     modify (set_armature current_link_idx arm) ;;;
     damp <- lift (atleast_1d damping) ;;
     modify (set_damping current_link_idx damp) ;;;
     link_geoms <- lift (make_geoms (findall "geom" (Node t attr subelements))) ;;
     modify (set_geoms current_link_idx link_geoms) ;;;
     for_bodies (fun subbodies => process_body' subbodies current_link_idx)
                subelements)%store.
Proof. reflexivity. Qed.

(** One call of process_body: the record of the body itself, then the
    loop over its child elements. *)
Lemma process_body_step body parent s :
  store_wf s ->
  process_body' body parent s
  = match body_entry' body parent with
    | Err e => Err e
    | Ok entry =>
        for_bodies (fun c => process_body' c (global_link_idx s + 1)%Z)
                   (children body) (record entry s)
    end.
Proof.
  intros [Hidx H1 H2 H3 H4 H5 H6 H7].
  pose proof (ids_upto_fresh s Hidx) as Hfresh.
  destruct body as [t attr cs].
  rewrite process_body_eq. unfold body_entry. cbn [attrib children].
  unfold bind, lift, modify, next_link_idx. cbn [rbind].
  destruct s as [idx ls ps ns ts gs ars ds].
  cbn [global_link_idx links link_parents link_names link_types geoms armatures
       dampings] in *.
  destruct (getitem attr "joint") as [joint|]; cbn [rbind]; [|reflexivity].
  destruct (getitem attr "name") as [name|]; cbn [rbind]; [|reflexivity].
  destruct (orientation f0 f1 quat_euler_deg2rad attr) as [rot|]; cbn [rbind];
    [|reflexivity].
  destruct (qd_width QD_WIDTHS joint) as [qd|]; cbn [rbind]; [|reflexivity].
  destruct (atleast_1d (dict_get_default String.eqb attr "armature" _)) as [arm|];
    cbn [rbind]; [|reflexivity].
  destruct (atleast_1d (dict_get_default String.eqb attr "damping" _)) as [damp|];
    cbn [rbind]; [|reflexivity].
  destruct (make_geoms (findall "geom" (Node t attr cs))) as [link_geoms|];
    cbn [rbind]; [|reflexivity].
  f_equal.
  cbv [record set_geoms set_damping set_armature set_link set_link_name
       set_link_type set_link_parent
       global_link_idx links link_parents link_names link_types geoms armatures
       dampings e_link e_parent e_name e_type e_geoms e_armature e_damping].
  rewrite !iset_fresh by congruence.
  reflexivity.
Qed.

Lemma for_bodies_walk parent cs :
  Forall (fun c => forall p s, store_wf s ->
              process_body' c p s
              = push_result s (walk' c p (global_link_idx s + 1)%Z)) cs ->
  forall s, store_wf s ->
    for_bodies (fun c => process_body' c parent) cs s
    = push_result s (walk_bodies (fun c next => walk' c parent next) cs
                                 (global_link_idx s + 1)%Z).
Proof.
  induction 1 as [|c cs Hc _ IH]; intros s Hwf; [reflexivity|].
  cbn [for_bodies walk_bodies]. unfold bind.
  destruct (String.eqb (tag c) "body").
  - rewrite Hc by exact Hwf.
    destruct (walk' c parent (global_link_idx s + 1)%Z) as [l1|]; cbn [push_result rbind];
      [|reflexivity].
    rewrite IH by now apply push_wf.
    rewrite push_idx.
    replace (global_link_idx s + Z.of_nat (List.length l1) + 1)%Z
      with (global_link_idx s + 1 + Z.of_nat (List.length l1))%Z by lia.
    destruct (walk_bodies _ cs _) as [l2|]; cbn [push_result rbind]; [|reflexivity].
    now rewrite push_app.
  - unfold ret. now rewrite IH.
Qed.

(** process_body records exactly what [walk] lists, in that order, or
    raises what [walk] raises. *)
Lemma process_body_walk body :
  forall parent s, store_wf s ->
    process_body' body parent s
    = push_result s (walk' body parent (global_link_idx s + 1)%Z).
Proof.
  induction body as [t attr cs IH] using Element_forall_ind.
  intros parent s Hwf.
  rewrite process_body_step by exact Hwf.
  cbn [walk children].
  destruct (body_entry' (Node t attr cs) parent) as [entry|]; cbn [rbind push_result];
    [|reflexivity].
  rewrite (for_bodies_walk _ IH) by now apply record_wf.
  cbn [record global_link_idx].
  destruct (walk_bodies _ cs _) as [rest|]; reflexivity.
Qed.
End Traversal.

(** ** From the store to the system *)

Section Flatten.
Variable F : Type.
Variables f0 f1 : F.
Variable QD_WIDTHS : sdict nat.
Variable quat_euler_deg2rad : Value F -> result (Value F).
Implicit Types (s : Store F) (body : Element F) (es : list (Entry F)).

Local Abbreviation body_entry' :=
  (body_entry f0 f1 QD_WIDTHS quat_euler_deg2rad).
Local Abbreviation walk' := (walk f0 f1 QD_WIDTHS quat_euler_deg2rad).

Lemma values_snoc K V (d : dict K V) k v : values (d ++ [(k, v)]) = values d ++ [v].
Proof. unfold values. now rewrite map_app. Qed.

Lemma push_values es : forall s,
  values (links (push s es)) = values (links s) ++ map (@e_link F) es /\
  values (link_parents (push s es)) = values (link_parents s) ++ map (@e_parent F) es /\
  values (link_names (push s es)) = values (link_names s) ++ map (@e_name F) es /\
  values (link_types (push s es)) = values (link_types s) ++ map (@e_type F) es /\
  values (geoms (push s es)) = values (geoms s) ++ map (@e_geoms F) es /\
  values (armatures (push s es)) = values (armatures s) ++ map (@e_armature F) es /\
  values (dampings (push s es)) = values (dampings s) ++ map (@e_damping F) es.
Proof.
  induction es as [|e es IH]; intros s.
  - cbn [push fold_left map]. now rewrite !app_nil_r.
  - cbn [push fold_left]. fold (push (record e s) es).
    destruct (IH (record e s)) as (H1 & H2 & H3 & H4 & H5 & H6 & H7).
    rewrite H1, H2, H3, H4, H5, H6, H7.
    cbn [record links link_parents link_names link_types geoms armatures dampings].
    rewrite !values_snoc, <- !app_assoc. cbn [map app]. tauto.
Qed.

Lemma assert_order_wf V (d : idict V) s :
  keys d = ids_upto s -> assert_order_then_to_list d = Ok (values d).
Proof.
  intros H. unfold assert_order_then_to_list.
  assert (Hlen : List.length d = Z.to_nat (global_link_idx s + 1)).
  { rewrite <- (length_map fst d). fold (keys d). rewrite H. apply range_length. }
  rewrite Hlen. fold (ids_upto s).
  destruct (list_eq_dec Z.eq_dec (keys d) (ids_upto s)); [reflexivity|contradiction].
Qed.

Lemma empty_store_wf : store_wf (empty_store F).
Proof. constructor; (reflexivity || (cbn; lia)). Qed.

Lemma flatten_push options es :
  flatten options (push (empty_store F) es) = system_of options es.
Proof.
  pose proof (push_wf es empty_store_wf) as [_ H1 H2 H3 H4 H5 H6 H7].
  destruct (push_values es (empty_store F)) as (V1 & V2 & V3 & V4 & V5 & V6 & V7).
  unfold flatten.
  rewrite (@assert_order_wf _ _ _ H1), (@assert_order_wf _ _ _ H2),
    (@assert_order_wf _ _ _ H3), (@assert_order_wf _ _ _ H4),
    (@assert_order_wf _ _ _ H5), (@assert_order_wf _ _ _ H6),
    (@assert_order_wf _ _ _ H7).
  cbn [rbind]. rewrite V1, V2, V3, V4, V5, V6, V7. cbn [empty_store links link_parents
    link_names link_types geoms armatures dampings values map app].
  unfold system_of, concatenate.
  destruct es as [|e es]; reflexivity.
Qed.

(** The traversal and the flattening together: the system of the
    records that [walk] lists for the bodies below the worldbody. *)
Lemma build_walk options worldbody :
  build f0 f1 QD_WIDTHS quat_euler_deg2rad options worldbody
  = (es <- walk_bodies (fun c next => walk' c (-1) next) (children worldbody) 0 ;;
     system_of options es)%result.
Proof.
  unfold build.
  rewrite (@for_bodies_walk F f0 f1 QD_WIDTHS quat_euler_deg2rad (-1)%Z (children worldbody)).
  - change (global_link_idx (empty_store F) + 1)%Z with 0%Z.
    destruct (walk_bodies _ (children worldbody) 0) as [es|]; cbn [push_result rbind];
      [apply flatten_push|reflexivity].
  - rewrite Forall_forall. intros c _ p s Hwf. now apply process_body_walk.
  - apply empty_store_wf.
Qed.

(** *** What [walk] lists *)

Lemma body_entry_parent body parent e :
  body_entry' body parent = Ok e -> e_parent e = parent.
Proof.
  unfold body_entry.
  destruct (getitem (attrib body) "joint"); cbn [rbind]; [|discriminate].
  destruct (getitem (attrib body) "name"); cbn [rbind]; [|discriminate].
  destruct (orientation _ _ _ _); cbn [rbind]; [|discriminate].
  destruct (qd_width _ _); cbn [rbind]; [|discriminate].
  destruct (atleast_1d _); cbn [rbind]; [|discriminate].
  destruct (atleast_1d _); cbn [rbind]; [|discriminate].
  destruct (make_geoms _); cbn [rbind]; [|discriminate].
  now intros [= <-].
Qed.


Lemma walk_bodies_listed parent cs :
  Forall (fun c => forall p idx es, walk' c p idx = Ok es ->
              Forall2 (fun e b => body_entry' b (e_parent e) = Ok e)
                      es (bodies_under c)) cs ->
  forall next es,
    walk_bodies (fun c n => walk' c parent n) cs next = Ok es ->
    Forall2 (fun e b => body_entry' b (e_parent e) = Ok e) es (bodies_of cs).
Proof.
  induction 1 as [|c cs Hc _ IH]; intros next es H.
  - injection H as <-. constructor.
  - cbn [walk_bodies] in H. unfold bodies_of. cbn [flat_map].
    destruct (String.eqb (tag c) "body").
    + destruct (walk' c parent next) as [l1|] eqn:E1; cbn [rbind] in H; [|discriminate].
      destruct (walk_bodies _ cs _) as [l2|] eqn:E2; cbn [rbind] in H; [|discriminate].
      injection H as <-. apply Forall2_app; [now apply (Hc _ _ _ E1)|].
      now apply (IH _ _ E2).
    + now apply (IH _ _ H).
Qed.

(** The records are those of the bodies below [body], in pre-order. *)
Lemma walk_listed body :
  forall parent idx es,
    walk' body parent idx = Ok es ->
    Forall2 (fun e b => body_entry' b (e_parent e) = Ok e) es (bodies_under body).
Proof.
  induction body as [t attr cs IH] using Element_forall_ind.
  intros parent idx es H. cbn [walk] in H.
  destruct (body_entry' (Node t attr cs) parent) as [e|] eqn:E; cbn [rbind] in H;
    [|discriminate].
  destruct (walk_bodies _ cs _) as [rest|] eqn:Er; cbn [rbind] in H; [|discriminate].
  injection H as <-. cbn [bodies_under]. constructor.
  - now rewrite (body_entry_parent _ _ E).
  - eapply walk_bodies_listed; eassumption.
Qed.

Lemma walk_bodies_parents parent cs :
  Forall (fun c => forall p idx es, walk' c p idx = Ok es ->
              exists e rest, es = e :: rest /\ e_parent e = p /\
                forall i e', nth_error rest i = Some e' ->
                  (idx <= e_parent e' < idx + 1 + Z.of_nat i)%Z) cs ->
  forall next es,
    walk_bodies (fun c n => walk' c parent n) cs next = Ok es ->
    forall i e, nth_error es i = Some e ->
      e_parent e = parent \/ (next <= e_parent e < next + Z.of_nat i)%Z.
Proof.
  induction 1 as [|c cs Hc _ IH]; intros next es H i e Hi.
  - injection H as <-. now destruct i.
  - cbn [walk_bodies] in H.
    destruct (String.eqb (tag c) "body"); [|now apply (IH _ _ H i e Hi)].
    destruct (walk' c parent next) as [l1|] eqn:E1; cbn [rbind] in H; [|discriminate].
    destruct (walk_bodies _ cs _) as [l2|] eqn:E2; cbn [rbind] in H; [|discriminate].
    injection H as <-.
    destruct (Hc _ _ _ E1) as (e1 & rest & -> & Hp & Hrest).
    destruct (Nat.lt_ge_cases i (List.length (e1 :: rest))) as [Hlt|Hge].
    + rewrite nth_error_app1 in Hi by exact Hlt.
      destruct i as [|j]; cbn [nth_error] in Hi.
      * injection Hi as <-. now left.
      * right. specialize (Hrest _ _ Hi). lia.
    + rewrite nth_error_app2 in Hi by exact Hge.
      destruct (IH _ _ E2 _ _ Hi) as [Hpar|Hpar]; [now left|right]. lia.
Qed.

(** The first record is the body's own; every later one has its parent
    among the records before it. *)
Lemma walk_parents body :
  forall parent idx es,
    walk' body parent idx = Ok es ->
    exists e rest, es = e :: rest /\ e_parent e = parent /\
      forall i e', nth_error rest i = Some e' ->
        (idx <= e_parent e' < idx + 1 + Z.of_nat i)%Z.
Proof.
  induction body as [t attr cs IH] using Element_forall_ind.
  intros parent idx es H. cbn [walk] in H.
  destruct (body_entry' (Node t attr cs) parent) as [e|] eqn:E; cbn [rbind] in H;
    [|discriminate].
  destruct (walk_bodies _ cs _) as [rest|] eqn:Er; cbn [rbind] in H; [|discriminate].
  injection H as <-. exists e, rest.
  split; [reflexivity|]. split; [exact (body_entry_parent _ _ E)|].
  intros i e' Hi.
  destruct (walk_bodies_parents idx IH (idx + 1)%Z Er i Hi) as [Hpar|Hpar]; lia.
Qed.

Lemma walk_bodies_roots parent cs :
  forall next es,
    walk_bodies (fun c n => walk' c parent n) cs next = Ok es ->
    forall k r,
      nth_error (filter (fun c => String.eqb (tag c) "body") cs) k = Some r ->
      exists e,
        nth_error es (List.length (bodies_of
           (firstn k (filter (fun c => String.eqb (tag c) "body") cs)))) = Some e
        /\ e_parent e = parent.
Proof.
  induction cs as [|c cs IH]; intros next es H k r Hk.
  - now destruct k.
  - cbn [walk_bodies filter] in *.
    destruct (String.eqb (tag c) "body") eqn:Etag; [|now apply (IH _ _ H k r Hk)].
    destruct (walk' c parent next) as [l1|] eqn:E1; cbn [rbind] in H; [|discriminate].
    destruct (walk_bodies _ cs _) as [l2|] eqn:E2; cbn [rbind] in H; [|discriminate].
    injection H as <-.
    destruct (walk_parents _ _ _ E1) as (e1 & rest & -> & Hp & _).
    destruct k as [|k]; cbn [firstn nth_error] in *.
    + exists e1. split; [reflexivity|exact Hp].
    + destruct (IH _ _ E2 _ _ Hk) as (e & He & Hpar).
      exists e. split; [|exact Hpar].
      unfold bodies_of in *. cbn [flat_map]. rewrite Etag, length_app.
      rewrite <- (Forall2_length (walk_listed _ _ _ E1)).
      rewrite nth_error_app2 by lia.
      now replace (List.length (e1 :: rest) + _ - List.length (e1 :: rest))
        with (List.length (flat_map
                (fun c0 => if String.eqb (tag c0) "body" then bodies_under c0 else [])
                (firstn k (filter (fun c0 => String.eqb (tag c0) "body") cs)))) by lia.
Qed.
End Flatten.

(** ** The loaded system *)

Section Loaded.
Variable F : Type.
Variable float : string -> option F.
Variables f0 f1 : F.
Variable QD_WIDTHS : sdict nat.
Variable quat_euler_deg2rad : Value F -> result (Value F).
Implicit Types (s : Store F) (body : Element F) (es : list (Entry F)).

Local Abbreviation load :=
  (load_sys_from_str float f0 f1 QD_WIDTHS quat_euler_deg2rad).
Local Abbreviation process_body' :=
  (process_body f0 f1 QD_WIDTHS quat_euler_deg2rad).
Local Abbreviation body_entry' :=
  (body_entry f0 f1 QD_WIDTHS quat_euler_deg2rad).
Local Abbreviation walk' := (walk f0 f1 QD_WIDTHS quat_euler_deg2rad).
Local Abbreviation walk_top :=
  (walk_bodies (fun c next => walk' c (-1) next)).

Lemma load_inv xml_tree sys :
  load xml_tree = Ok sys ->
  exists options worldbody es,
    prepare float xml_tree = Ok (options, worldbody) /\
    walk_top (children worldbody) 0 = Ok es /\
    system_of options es = Ok sys.
Proof.
  unfold load_sys_from_str.
  destruct (prepare float xml_tree) as [[options worldbody]|]; cbn [rbind fst snd];
    [|discriminate].
  rewrite build_walk.
  destruct (walk_top (children worldbody) 0) as [es|] eqn:E; cbn [rbind];
    [|discriminate].
  intros H. now exists options, worldbody, es.
Qed.

Lemma system_of_inv options es sys :
  system_of options es = Ok sys ->
  es <> [] /\
  sys_link_parents sys = map (@e_parent F) es /\
  sys_links sys = map (@e_link F) es /\
  sys_link_types sys = map (@e_type F) es /\
  sys_link_names sys = map (@e_name F) es /\
  sys_geoms sys = map (@e_geoms F) es /\
  sys_link_damping sys = concat (map (@e_damping F) es) /\
  sys_link_armature sys = concat (map (@e_armature F) es).
Proof.
  unfold system_of. destruct es as [|e es]; [discriminate|].
  destruct (getitem options "dt"); cbn [rbind]; [|discriminate].
  destruct (getitem options "gravity"); cbn [rbind]; [|discriminate].
  intros [= <-]. cbn [sys_link_parents sys_links sys_link_types sys_link_names
                      sys_geoms sys_link_damping sys_link_armature].
  repeat split. discriminate.
Qed.

Lemma getitem_Ok V (d : sdict V) k v : getitem d k = Ok v -> sget d k = Some v.
Proof. unfold getitem. destruct (sget d k); congruence. Qed.

Lemma body_entry_inv body parent e :
  body_entry' body parent = Ok e ->
  sget (attrib body) "joint" = Some (e_type e) /\
  sget (attrib body) "name" = Some (e_name e) /\
  orientation f0 f1 quat_euler_deg2rad (attrib body) = Ok (rot (e_link e)) /\
  (exists qd_size,
      qd_width QD_WIDTHS (e_type e) = Ok qd_size /\
      atleast_1d (dict_get_default String.eqb (attrib body) "armature"
                                   (VArr (zeros f0 qd_size))) = Ok (e_armature e) /\
      atleast_1d (dict_get_default String.eqb (attrib body) "damping"
                                   (VArr (zeros f0 qd_size))) = Ok (e_damping e)) /\
  make_geoms (findall "geom" body) = Ok (e_geoms e).
Proof.
  unfold body_entry.
  destruct (getitem (attrib body) "joint") as [joint|] eqn:Ej; cbn [rbind]; [|discriminate].
  destruct (getitem (attrib body) "name") as [name|] eqn:En; cbn [rbind]; [|discriminate].
  destruct (orientation _ _ _ _) as [r|] eqn:Eo; cbn [rbind]; [|discriminate].
  destruct (qd_width _ _) as [qd|] eqn:Eq; cbn [rbind]; [|discriminate].
  destruct (atleast_1d _) as [arm|] eqn:Ea; cbn [rbind]; [|discriminate].
  destruct (atleast_1d (dict_get_default _ _ "damping" _)) as [damp|] eqn:Ed;
    cbn [rbind]; [|discriminate].
  destruct (make_geoms _) as [gs|] eqn:Eg; cbn [rbind]; [|discriminate].
  intros [= <-]. cbn [e_type e_name e_link rot e_armature e_damping e_geoms].
  repeat split; auto using getitem_Ok. exists qd. auto.
Qed.

Lemma walk_top_listed cs es :
  walk_top cs 0 = Ok es ->
  Forall2 (fun e b => body_entry' b (e_parent e) = Ok e) es (bodies_of cs).
Proof.
  intros H. eapply walk_bodies_listed; [|exact H].
  rewrite Forall_forall. intros c _ p idx l. apply walk_listed.
Qed.

Lemma walk_top_parents cs es i e :
  walk_top cs 0 = Ok es -> nth_error es i = Some e ->
  (-1 <= e_parent e < Z.of_nat i)%Z.
Proof.
  intros H Hi.
  assert (Hall : Forall (fun c => forall p idx l, walk' c p idx = Ok l ->
              exists e rest, l = e :: rest /\ e_parent e = p /\
                forall i e', nth_error rest i = Some e' ->
                  (idx <= e_parent e' < idx + 1 + Z.of_nat i)%Z) cs).
  { rewrite Forall_forall. intros c _ p idx l. apply walk_parents. }
  pose proof walk_bodies_parents as X.
  destruct (X F f0 f1 QD_WIDTHS quat_euler_deg2rad (-1)%Z cs Hall 0%Z es H i e Hi); lia.
Qed.

(** C1.  For a document that loads, the ids handed out by the traversal
    are the keys 0, 1, ..., n-1 of the dicts in that order, one per body
    below the worldbody in pre-order; the names of the system are the
    names of these bodies in that order; every parent id is at least -1
    and smaller than the id of its link; and each direct body child of
    the worldbody has parent id -1. *)
Theorem link_ids_dense_preorder :
  forall xml_tree sys,
    load xml_tree = Ok sys ->
    exists options worldbody s,
      prepare float xml_tree = Ok (options, worldbody) /\
      for_bodies (fun body => process_body' body (-1)) (children worldbody)
                 (empty_store F) = Ok (tt, s) /\
      let bodies := bodies_of (children worldbody) in
      let roots := findall "body" worldbody in
      keys (link_parents s) = range (List.length bodies) /\
      sys_link_parents sys = values (link_parents s) /\
      Forall2 (fun name b => sget (attrib b) "name" = Some name)
              (sys_link_names sys) bodies /\
      (forall i p, nth_error (sys_link_parents sys) i = Some p ->
                   (-1 <= p < Z.of_nat i)%Z) /\
      (forall k, k < List.length roots ->
                 nth_error (sys_link_parents sys)
                           (List.length (bodies_of (firstn k roots))) = Some (-1)%Z).
Proof.
  intros xml_tree sys Hload.
  destruct (load_inv _ Hload) as (options & worldbody & es & Hprep & Hwalk & Hsys).
  destruct (system_of_inv _ _ Hsys) as (_ & Hpar & _ & _ & Hnames & _).
  pose proof (walk_top_listed _ Hwalk) as Hlisted.
  exists options, worldbody, (push (empty_store F) es).
  split; [exact Hprep|]. split.
  { rewrite (@for_bodies_walk F f0 f1 QD_WIDTHS quat_euler_deg2rad (-1)%Z
               (children worldbody)).
    - change (global_link_idx (empty_store F) + 1)%Z with 0%Z. now rewrite Hwalk.
    - rewrite Forall_forall. intros c _ p s Hwf. now apply process_body_walk.
    - apply empty_store_wf. }
  cbv zeta.
  destruct (push_values es (empty_store F)) as (_ & Hv & _).
  split; [|split; [|split; [|split]]].
  - rewrite (wf_parents (push_wf es (@empty_store_wf F))). unfold ids_upto.
    rewrite push_idx. cbn [empty_store global_link_idx].
    rewrite <- (Forall2_length Hlisted). f_equal. lia.
  - now rewrite Hpar, Hv.
  - rewrite Hnames. clear - Hlisted.
    induction Hlisted as [|e b es bs He _ IH]; cbn [map]; constructor; [|exact IH].
    now apply body_entry_inv in He.
  - intros i p Hi. rewrite Hpar, nth_error_map in Hi.
    destruct (nth_error es i) as [e|] eqn:Ee; [|discriminate].
    injection Hi as <-. exact (walk_top_parents _ _ Hwalk Ee).
  - intros k Hk. unfold findall in *.
    destruct (nth_error (filter (fun c => String.eqb (tag c) "body")
                                (children worldbody)) k) as [r|] eqn:Er;
      [|apply nth_error_None in Er; lia].
    pose proof walk_bodies_roots as X.
    destruct (X F f0 f1 QD_WIDTHS quat_euler_deg2rad (-1)%Z (children worldbody)
                0%Z es Hwalk k r Er) as (e & He & Hp).
    now rewrite Hpar, nth_error_map, He, <- Hp.
Qed.
(** *** Damping and armature *)

Lemma length_concat_map A B (f : A -> list B) (l : list A) :
  List.length (concat (map f l)) = sum (map (fun a => List.length (f a)) l).
Proof.
  induction l as [|a l IH]; cbn [map concat sum fold_right]; [reflexivity|].
  rewrite length_app. unfold sum in IH. now rewrite IH.
Qed.

Lemma atleast_1d_length (v : Value F) l :
  atleast_1d v = Ok l -> List.length l = value_size v.
Proof.
  destruct v as [str|[x|xs]]; cbn [atleast_1d value_size]; [discriminate| |];
    now intros [= <-].
Qed.

Lemma recorded_length key body qd_size (l : list F) :
  dof QD_WIDTHS body = qd_size ->
  atleast_1d (dict_get_default String.eqb (attrib body) key (VArr (zeros f0 qd_size)))
  = Ok l ->
  List.length l = recorded_size QD_WIDTHS key body.
Proof.
  intros Hdof. unfold recorded_size, dict_get_default, sget.
  destruct (dict_get String.eqb (attrib body) key) as [v|].
  - apply atleast_1d_length.
  - cbn [atleast_1d zeros]. intros [= <-]. now rewrite repeat_length.
Qed.

Lemma body_entry_sizes body parent e :
  body_entry' body parent = Ok e ->
  width QD_WIDTHS (e_type e) = dof QD_WIDTHS body /\
  List.length (e_damping e) = recorded_size QD_WIDTHS "damping" body /\
  List.length (e_armature e) = recorded_size QD_WIDTHS "armature" body.
Proof.
  intros H. apply body_entry_inv in H.
  destruct H as (Hj & _ & _ & (qd & Hq & Ha & Hd) & _).
  assert (Hdof : dof QD_WIDTHS body = qd)
    by (unfold dof, width; now rewrite Hj, Hq).
  split; [unfold dof; now rewrite Hj|].
  split; eapply recorded_length; eassumption.
Qed.

Lemma listed_map A (f : Entry F -> A) (g : Element F -> A) es bodies :
  Forall2 (fun e b => body_entry' b (e_parent e) = Ok e) es bodies ->
  (forall e b, body_entry' b (e_parent e) = Ok e -> f e = g b) ->
  map f es = map g bodies.
Proof.
  intros H Hfg. induction H as [|e b es bs He _ IH]; cbn [map]; [reflexivity|].
  now rewrite (Hfg _ _ He), IH.
Qed.

(** C2, as the code has it.  For a document that loads, the damping
    vector of a link is as long as the body's damping attribute where
    the body has one (after the defaults merge) and as long as the
    degrees of freedom of its joint type where it has none; the
    concatenated vector has the sum of these lengths, and the same holds
    for the armatures.  When no body carries the attribute the length is
    the sum of the degrees of freedom of the link types. *)
Theorem damping_armature_lengths :
  forall xml_tree sys,
    load xml_tree = Ok sys ->
    exists options worldbody,
      prepare float xml_tree = Ok (options, worldbody) /\
      let bodies := bodies_of (children worldbody) in
      List.length (sys_link_damping sys)
      = sum (map (recorded_size QD_WIDTHS "damping") bodies) /\
      List.length (sys_link_armature sys)
      = sum (map (recorded_size QD_WIDTHS "armature") bodies) /\
      ((forall b, In b bodies -> sget (attrib b) "damping" = None) ->
       List.length (sys_link_damping sys)
       = sum (map (width QD_WIDTHS) (sys_link_types sys))) /\
      ((forall b, In b bodies -> sget (attrib b) "armature" = None) ->
       List.length (sys_link_armature sys)
       = sum (map (width QD_WIDTHS) (sys_link_types sys))).
Proof.
  intros xml_tree sys Hload.
  destruct (load_inv _ Hload) as (options & worldbody & es & Hprep & Hwalk & Hsys).
  destruct (system_of_inv _ _ Hsys) as (_ & _ & _ & Hty & _ & _ & Hd & Ha).
  pose proof (walk_top_listed _ Hwalk) as Hlisted.
  exists options, worldbody. split; [exact Hprep|]. cbv zeta.
  assert (HD : List.length (sys_link_damping sys)
               = sum (map (recorded_size QD_WIDTHS "damping")
                          (bodies_of (children worldbody)))).
  { rewrite Hd, length_concat_map. f_equal.
    apply (listed_map _ _ Hlisted). intros e b He. now apply body_entry_sizes in He. }
  assert (HA : List.length (sys_link_armature sys)
               = sum (map (recorded_size QD_WIDTHS "armature")
                          (bodies_of (children worldbody)))).
  { rewrite Ha, length_concat_map. f_equal.
    apply (listed_map _ _ Hlisted). intros e b He. now apply body_entry_sizes in He. }
  assert (HT : map (width QD_WIDTHS) (sys_link_types sys)
               = map (dof QD_WIDTHS) (bodies_of (children worldbody))).
  { rewrite Hty, map_map.
    apply (listed_map _ _ Hlisted). intros e b He. now apply body_entry_sizes in He. }
  split; [exact HD|]. split; [exact HA|].
  split; intros Hnone; [rewrite HD|rewrite HA]; rewrite HT; f_equal;
    apply map_ext_in; intros b Hb; unfold recorded_size; now rewrite (Hnone b Hb).
Qed.

(** *** A default damping *)

Lemma sget_convert_attrib (a : sdict (Value F)) k :
  sget (convert_attrib float a) k = option_map (convert_value float) (sget a k).
Proof.
  unfold sget, convert_attrib.
  induction a as [|[k' v] a IH]; cbn [map dict_get fst snd]; [reflexivity|].
  now destruct (String.eqb k' k).
Qed.

Lemma convert_single_literal str x :
  split_on " " str = [str] -> float str = Some x ->
  convert_value float (VStr str) = VArr (Scalar x).
Proof.
  intros Hs Hx. cbn [convert_value]. rewrite Hs. cbn [floats]. now rewrite Hx.
Qed.

(** C4, as the code has it.  With [damping="0.1"] among the defaults of
    body, a body node without a damping attribute is recorded with the
    one-entry vector [0.1], whatever the degrees of freedom of its joint
    type; a body node with [damping="0.5"] is recorded with [0.5]. *)
Theorem default_damping_taken_as_given :
  forall x y geom_defaults body_defaults attr cs,
    float "0.1" = Some x ->
    float "0.5" = Some y ->
    sget body_defaults "damping" = Some (VStr "0.1") ->
    let default_attrs := mkDefaults (convert_attrib float geom_defaults)
                                    (convert_attrib float body_defaults) in
    let body := _mix_in_defaults default_attrs
                  (_convert_attrs_to_arrays float (Node "body" attr cs)) in
    (sget attr "damping" = None ->
     (forall qd_size,
         atleast_1d (dict_get_default String.eqb (attrib body) "damping"
                                      (VArr (zeros f0 qd_size))) = Ok [x]) /\
     (forall parent e, body_entry' body parent = Ok e -> e_damping e = [x])) /\
    (sget attr "damping" = Some (VStr "0.5") ->
     (forall qd_size,
         atleast_1d (dict_get_default String.eqb (attrib body) "damping"
                                      (VArr (zeros f0 qd_size))) = Ok [y]) /\
     (forall parent e, body_entry' body parent = Ok e -> e_damping e = [y])).
Proof.
  intros x y gd bd attr cs Hx Hy Hdef default_attrs body.
  assert (Hattr : attrib body
                  = mix_attrib (convert_attrib float attr) (convert_attrib float bd))
    by reflexivity.
  assert (Hrec : forall v,
             sget (attrib body) "damping" = Some (VArr (Scalar v)) ->
             (forall qd_size,
                 atleast_1d (dict_get_default String.eqb (attrib body) "damping"
                                              (VArr (zeros f0 qd_size))) = Ok [v]) /\
             (forall parent e, body_entry' body parent = Ok e -> e_damping e = [v])).
  { intros v Hv.
    assert (Hq : forall qd_size,
               atleast_1d (dict_get_default String.eqb (attrib body) "damping"
                                            (VArr (zeros f0 qd_size))) = Ok [v]).
    { intros qd_size. unfold dict_get_default. unfold sget in Hv. now rewrite Hv. }
    split; [exact Hq|].
    intros parent e He. apply body_entry_inv in He.
    destruct He as (_ & _ & _ & (qd & _ & _ & Hd) & _).
    rewrite Hq in Hd. now injection Hd. }
  split; intros Hnode; apply Hrec; rewrite Hattr.
  - rewrite mix_attrib_fill by (rewrite sget_convert_attrib, Hnode; reflexivity).
    rewrite sget_convert_attrib, Hdef. cbn [option_map].
    now rewrite (@convert_single_literal "0.1" x eq_refl Hx).
  - apply mix_attrib_keep.
    rewrite sget_convert_attrib, Hnode. cbn [option_map].
    now rewrite (@convert_single_literal "0.5" y eq_refl Hy).
Qed.

(** *** Orientation *)

Lemma sget_getitem V (d : sdict V) k v : sget d k = Some v -> getitem d k = Ok v.
Proof. unfold getitem. now intros ->. Qed.

Lemma sget_getitem_none V (d : sdict V) k :
  sget d k = None -> getitem d k = Err (KeyError k).
Proof. unfold getitem. now intros ->. Qed.




(** *** Attributes that must be there *)

Lemma make_geom_inv (g_attr : sdict (Value F)) g :
  make_geom g_attr = Ok g ->
  sget g_attr "type" <> None /\ sget g_attr "mass" <> None /\
  sget g_attr "pos" <> None /\ sget g_attr "dim" <> None.
Proof.
  unfold make_geom, getitem.
  destruct (sget g_attr "type"); cbn [rbind]; [|discriminate].
  destruct (geom_map _); cbn [rbind]; [|discriminate].
  destruct (sget g_attr "mass"); cbn [rbind]; [|discriminate].
  destruct (sget g_attr "pos"); cbn [rbind]; [|discriminate].
  destruct (sget g_attr "dim"); cbn [rbind]; [|discriminate].
  intros _. repeat split; discriminate.
Qed.

Lemma make_geoms_inv (gs : list (Element F)) l :
  make_geoms gs = Ok l ->
  forall g, In g gs -> exists geom, make_geom (attrib g) = Ok geom.
Proof.
  revert l. induction gs as [|g0 gs IH]; intros l H g Hin; [contradiction|].
  cbn [make_geoms] in H.
  destruct (make_geom (attrib g0)) as [geom|] eqn:E; cbn [rbind] in H; [|discriminate].
  destruct (make_geoms gs) as [l'|]; cbn [rbind] in H; [|discriminate].
  destruct Hin as [<-|Hin]; [now exists geom|].
  now apply (IH l' eq_refl).
Qed.

Lemma listed_body (R : Entry F -> Element F -> Prop) es bodies b :
  Forall2 R es bodies -> In b bodies -> exists e, R e b.
Proof.
  induction 1 as [|e b' es bs He _ IH]; intros Hin; [contradiction|].
  destruct Hin as [<-|Hin]; [now exists e|auto].
Qed.

Lemma geom_map_known shape :
  known_shape shape -> exists make, geom_map (VStr shape : Value F) = Ok make.
Proof.
  intros [-> | [-> | ->]]; cbn; eexists; reflexivity.
Qed.

(** C10, as the code has it.  process_body reads joint and name of the
    body it is called on with [KeyError] where one is missing, and the
    loop over the direct geom children of that body reads type, and for
    a known shape mass, pos and dim, with [KeyError] where one is
    missing; nothing is substituted.  So in a document that loads, every
    body below the worldbody has name and joint and each of its direct
    geom children has type, mass, pos and dim. *)
Theorem required_attributes :
  (forall body parent s,
      sget (attrib body) "joint" = None ->
      process_body' body parent s = Err (KeyError "joint")) /\
  (forall body parent s joint,
      sget (attrib body) "joint" = Some joint ->
      sget (attrib body) "name" = None ->
      process_body' body parent s = Err (KeyError "name")) /\
  (forall g_attr : sdict (Value F),
      sget g_attr "type" = None -> make_geom g_attr = Err (KeyError "type")) /\
  (forall (g_attr : sdict (Value F)) shape,
      sget g_attr "type" = Some (VStr shape) -> known_shape shape ->
      (sget g_attr "mass" = None -> make_geom g_attr = Err (KeyError "mass")) /\
      (sget g_attr "mass" <> None -> sget g_attr "pos" = None ->
       make_geom g_attr = Err (KeyError "pos")) /\
      (sget g_attr "mass" <> None -> sget g_attr "pos" <> None ->
       sget g_attr "dim" = None -> make_geom g_attr = Err (KeyError "dim"))) /\
  (forall xml_tree sys,
      load xml_tree = Ok sys ->
      exists options worldbody,
        prepare float xml_tree = Ok (options, worldbody) /\
        forall b, In b (bodies_of (children worldbody)) ->
          sget (attrib b) "name" <> None /\ sget (attrib b) "joint" <> None /\
          forall g, In g (findall "geom" b) ->
            sget (attrib g) "type" <> None /\ sget (attrib g) "mass" <> None /\
            sget (attrib g) "pos" <> None /\ sget (attrib g) "dim" <> None).
Proof.
  split; [|split; [|split; [|split]]].
  - intros [t attr cs] parent s Hj. cbn [attrib] in Hj.
    rewrite process_body_eq. unfold bind, lift, modify, next_link_idx.
    now rewrite (sget_getitem_none _ _ Hj).
  - intros [t attr cs] parent s joint Hj Hn. cbn [attrib] in *.
    rewrite process_body_eq. unfold bind, lift, modify, next_link_idx.
    now rewrite (sget_getitem _ _ Hj), (sget_getitem_none _ _ Hn).
  - intros g_attr Ht. unfold make_geom. now rewrite (sget_getitem_none _ _ Ht).
  - intros g_attr shape Ht Hk.
    destruct (geom_map_known Hk) as (make & Hmake).
    unfold make_geom. rewrite (sget_getitem _ _ Ht). cbn [rbind].
    rewrite Hmake. cbn [rbind]. unfold getitem.
    split; [now intros ->|]. split.
    + intros Hm ->. now destruct (sget g_attr "mass").
    + intros Hm Hp ->.
      destruct (sget g_attr "mass"); [|contradiction].
      now destruct (sget g_attr "pos").
  - intros xml_tree sys Hload.
    destruct (load_inv _ Hload) as (options & worldbody & es & Hprep & Hwalk & Hsys).
    pose proof (walk_top_listed _ Hwalk) as Hlisted.
    exists options, worldbody. split; [exact Hprep|].
    intros b Hb.
    destruct (@listed_body _ _ _ _ Hlisted Hb) as (e & He).
    apply body_entry_inv in He. destruct He as (Hj & Hn & _ & _ & Hg).
    split; [congruence|]. split; [congruence|].
    intros g Hin. destruct (make_geoms_inv _ Hg _ Hin) as (geom & Hgeom).
    exact (make_geom_inv _ Hgeom).
Qed.
End Loaded.

(** ** Looking up the singleton nodes *)

Section Lookup.
Variable F : Type.
Implicit Types tree e : Element F.

Lemma findall_In key tree e :
  In e (findall key tree) <-> In e (children tree) /\ tag e = key.
Proof. unfold findall. rewrite filter_In, String.eqb_eq. reflexivity. Qed.

Lemma iter_self e : In e (iter e).
Proof. destruct e. now left. Qed.

Lemma iter_child tree c e :
  In c (children tree) -> In e (iter c) -> In e (iter tree).
Proof.
  destruct tree as [t a cs]. cbn [children iter]. intros Hc He.
  right. apply in_flat_map. now exists c.
Qed.

Lemma find_unique_none keys tree key :
  findall key tree = [] -> _find_assert_unique tree key keys = Ok None.
Proof. intros H. destruct keys; cbn [_find_assert_unique]; now rewrite H. Qed.

Lemma find_unique_many keys tree key :
  2 <= List.length (findall key tree) ->
  _find_assert_unique tree key keys = Err (AssertionError StructuralViolation).
Proof.
  intros H. destruct keys; cbn [_find_assert_unique];
    destruct (findall key tree) as [|x [|y l]]; cbn [List.length] in H;
    (reflexivity || lia).
Qed.

Lemma find_unique_step keys tree key :
  _find_assert_unique tree key keys
  = match findall key tree with
    | [] => Ok None
    | [value0] =>
        match keys with
        | [] => Ok (Some value0)
        | key' :: keys' => _find_assert_unique value0 key' keys'
        end
    | _ :: _ :: _ => Err (AssertionError StructuralViolation)
    end.
Proof. destruct keys; reflexivity. Qed.

Lemma find_unique_err keys tree key err :
  _find_assert_unique tree key keys = Err err ->
  err = AssertionError StructuralViolation /\
  exists node k,
    In node (iter tree) /\ In k (key :: keys) /\
    2 <= List.length (findall k node).
Proof.
  revert tree key. induction keys as [|key' keys IH]; intros tree key;
    rewrite find_unique_step;
    destruct (findall key tree) as [|x [|y l]] eqn:E; try discriminate.
  - intros [= <-]. split; [reflexivity|].
    exists tree, key. rewrite E. cbn [List.length].
    split; [apply iter_self|]. split; [now left|lia].
  - intros H. destruct (IH _ _ H) as (-> & node & k & Hn & Hk & Hlen).
    split; [reflexivity|]. exists node, k.
    split; [|split; [now right|exact Hlen]].
    apply iter_child with (c := x); [|exact Hn].
    apply (findall_In key tree x). rewrite E. now left.
  - intros [= <-]. split; [reflexivity|].
    exists tree, key. rewrite E. cbn [List.length].
    split; [apply iter_self|]. split; [now left|lia].
Qed.

(** X1.  [_find_assert_unique] returns [None] where the first key has
    no match and raises where it has two or more, whatever keys follow;
    its only exception is the assertion on the number of matches, and it
    is raised exactly because some element on the way has two or more
    children tagged with the key looked up in it. *)
Theorem find_assert_unique_raises_on_duplicates_only :
  forall keys tree key,
    (findall key tree = [] -> _find_assert_unique tree key keys = Ok None) /\
    (2 <= List.length (findall key tree) ->
     _find_assert_unique tree key keys = Err (AssertionError StructuralViolation)) /\
    (forall err,
        _find_assert_unique tree key keys = Err err ->
        err = AssertionError StructuralViolation /\
        exists node k,
          In node (iter tree) /\ In k (key :: keys) /\
          2 <= List.length (findall k node)).
Proof.
  intros keys tree key.
  split; [apply find_unique_none|]. split; [apply find_unique_many|].
  intros err. apply find_unique_err.
Qed.

Lemma last_indep (l : list string) (a d d' : string) :
  last (a :: l) d = last (a :: l) d'.
Proof.
  revert a. induction l as [|b l IH]; intros a; [reflexivity|].
  change (last (b :: l) d = last (b :: l) d'). apply IH.
Qed.

Lemma last_default (l : list string) (a d : string) : last l a = last (a :: l) d.
Proof.
  destruct l as [|b l]; [reflexivity|].
  change (last (b :: l) a = last (b :: l) d). apply last_indep.
Qed.

(** X2.  The element [_find_assert_unique] returns carries the last of
    the keys as its tag and lies in the tree; for a single key it is the
    one child with that tag. *)
Theorem find_assert_unique_returns_the_match :
  forall keys tree key e,
    _find_assert_unique tree key keys = Ok (Some e) ->
    tag e = last keys key /\ In e (iter tree) /\
    (keys = [] -> findall key tree = [e]).
Proof.
  intros keys. induction keys as [|key' keys IH]; intros tree key e;
    rewrite find_unique_step;
    destruct (findall key tree) as [|x [|y l]] eqn:E; try discriminate.
  - intros [= <-].
    assert (Hx : In x (findall key tree)) by (rewrite E; now left).
    apply findall_In in Hx. destruct Hx as [Hc Ht].
    split; [exact Ht|]. split; [|reflexivity].
    apply iter_child with (c := x); [exact Hc|apply iter_self].
  - intros H. destruct (IH _ _ _ H) as (Ht & Hin & _).
    split; [rewrite Ht; apply last_default|]. split; [|discriminate].
    apply iter_child with (c := x); [|exact Hin].
    apply (findall_In key tree x). rewrite E. now left.
Qed.

End Lookup.

(** ** The defaults subtree *)

Section Defaults.
Variable F : Type.
Implicit Types tree e : Element F.

Lemma defaults_of_inv tree tg attrs :
  defaults_of tree tg = Ok attrs ->
  (attrs = [] /\
   (findall "defaults" tree = [] \/
    exists dn, findall "defaults" tree = [dn] /\ findall tg dn = [])) \/
  (exists dn n,
      findall "defaults" tree = [dn] /\ findall tg dn = [n] /\ attrs = attrib n).
Proof.
  unfold defaults_of. cbn [_find_assert_unique].
  destruct (findall "defaults" tree) as [|dn [|dn' l]]; cbn [rbind];
    [intros [= <-]; left; auto| |discriminate].
  destruct (findall tg dn) as [|n [|n' l]] eqn:E; cbn [rbind]; [| |discriminate].
  - intros [= <-]. left. split; [reflexivity|]. right. now exists dn.
  - intros [= <-]. right. now exists dn, n.
Qed.

Lemma defaults_of_err tree tg err :
  defaults_of tree tg = Err err -> err = AssertionError StructuralViolation.
Proof.
  unfold defaults_of.
  destruct (_find_assert_unique tree "defaults" [tg]) as [r|err'] eqn:E; cbn [rbind];
    [discriminate|].
  intros [= <-].
  now destruct (find_unique_err _ _ _ E).
Qed.

(** X3.  [_build_defaults_attributes] raises nothing but the assertion
    of [_find_assert_unique], and raises it when the document has two
    defaults subtrees; the defaults it returns for a tag are the
    attributes of the one child with that tag of the one defaults
    subtree, and empty where the subtree or the child is missing. *)
Theorem build_defaults_reads_the_unique_children :
  forall tree,
    (forall err, _build_defaults_attributes tree = Err err ->
                 err = AssertionError StructuralViolation) /\
    (2 <= List.length (findall "defaults" tree) ->
     _build_defaults_attributes tree = Err (AssertionError StructuralViolation)) /\
    (forall d, _build_defaults_attributes tree = Ok d ->
       forall tg attrs,
         (tg = "geom" /\ attrs = geom_defaults d) \/
         (tg = "body" /\ attrs = body_defaults d) ->
         (attrs = [] /\
          (findall "defaults" tree = [] \/
           exists dn, findall "defaults" tree = [dn] /\ findall tg dn = [])) \/
         (exists dn n,
             findall "defaults" tree = [dn] /\ findall tg dn = [n] /\
             attrs = attrib n)).
Proof.
  intros tree. unfold _build_defaults_attributes. split; [|split].
  - intros err.
    destruct (defaults_of tree "geom") as [g|e1] eqn:Eg; cbn [rbind].
    + destruct (defaults_of tree "body") as [b|e2] eqn:Eb; cbn [rbind]; [discriminate|].
      intros [= <-]. exact (defaults_of_err _ _ Eb).
    + intros [= <-]. exact (defaults_of_err _ _ Eg).
  - intros H. unfold defaults_of.
    now rewrite (find_unique_many ["geom"] tree "defaults" H).
  - intros d.
    destruct (defaults_of tree "geom") as [g|e1] eqn:Eg; cbn [rbind]; [|discriminate].
    destruct (defaults_of tree "body") as [b|e2] eqn:Eb; cbn [rbind]; [|discriminate].
    intros [= <-] tg attrs [[-> ->]|[-> ->]]; cbn [geom_defaults body_defaults];
      now apply defaults_of_inv.
Qed.
End Defaults.

(** ** The schema check *)

Lemma split_on_nonempty sep s : split_on sep s <> [].
Proof.
  destruct s as [|c s]; cbn [split_on]; [discriminate|].
  destruct (Ascii.eqb c sep); [discriminate|].
  destruct (split_on sep s); discriminate.
Qed.

Lemma split_head_cons sep c s :
  split_head sep (String c s)
  = if Ascii.eqb c sep then EmptyString else String c (split_head sep s).
Proof.
  unfold split_head. cbn [split_on].
  destruct (Ascii.eqb c sep); [reflexivity|].
  destruct (split_on sep s) eqn:E; [now apply split_on_nonempty in E|reflexivity].
Qed.

(** The first piece is the text before the first separator. *)
Lemma split_head_prefix sep s :
  s = split_head sep s \/ exists rest, s = (split_head sep s ++ String sep rest)%string.
Proof.
  induction s as [|c s IH]; [now left|].
  rewrite split_head_cons.
  destruct (Ascii.eqb c sep) eqn:E.
  - apply Ascii.eqb_eq in E. subst c. right. now exists s.
  - destruct IH as [IH|[rest IH]].
    + left. now rewrite <- IH.
    + right. exists rest. cbn [append]. now rewrite <- IH.
Qed.

Lemma is_vispy_prefixed rest : is_vispy ("vispy_" ++ rest)%string = true.
Proof.
  unfold is_vispy. cbn [append]. rewrite !split_head_cons. reflexivity.
Qed.

Lemma is_vispy_inv attr :
  is_vispy attr = true -> attr = "vispy" \/ exists rest, attr = ("vispy_" ++ rest)%string.
Proof.
  unfold is_vispy. rewrite String.eqb_eq. intros H.
  destruct (split_head_prefix "_" attr) as [E|[rest E]]; rewrite H in E.
  - now left.
  - right. now exists rest.
Qed.

Section Schema.
Variable F : Type.
Implicit Types e : Element F.

Lemma check_all_Forall (l : list (Element F)) :
  check_all l = Ok tt <-> Forall (fun e => node_valid e = Ok tt) l.
Proof.
  induction l as [|e l IH]; cbn [check_all]; [split; auto|].
  destruct (node_valid_cases e) as [E|E]; rewrite E; cbn [rbind].
  - rewrite IH. split; [now constructor|]. now inversion 1.
  - split; [discriminate|]. inversion 1. congruence.
Qed.

Lemma check_all_cases (l : list (Element F)) :
  check_all l = Ok tt \/ check_all l = Err (AssertionError SchemaViolation).
Proof.
  induction l as [|e l IH]; cbn [check_all]; [now left|].
  destruct (node_valid_cases e) as [E|E]; rewrite E; cbn [rbind]; auto.
Qed.

Lemma attr_valid_spec tg attr :
  attr_valid tg attr = true <->
  (tg = "geom" /\ is_vispy attr = true) \/
  (exists allowed, sget valid_attrs tg = Some allowed /\ In attr allowed).
Proof.
  unfold attr_valid, dict_get_default, sget.
  rewrite orb_true_iff, andb_true_iff, String.eqb_eq.
  destruct (dict_get String.eqb valid_attrs tg) as [allowed|].
  - rewrite str_in_In. split; (intros [H|H]; [now left|right]).
    + now exists allowed.
    + destruct H as (a & [= <-] & Hin). exact Hin.
  - split; (intros [H|H]; [now left|]); [discriminate|].
    destruct H as (a & [=] & _).
Qed.

Lemma node_valid_spec e :
  node_valid e = Ok tt <->
  In (tag e) ["x_xy"; "options"; "defaults"; "worldbody"; "body"; "geom"] /\
  forall attr, In attr (keys (attrib e)) ->
    (tag e = "geom" /\ is_vispy attr = true) \/
    (exists allowed, sget valid_attrs (tag e) = Some allowed /\ In attr allowed).
Proof.
  unfold node_valid, assert_at.
  change (keys valid_attrs)
    with ["x_xy"; "options"; "defaults"; "worldbody"; "body"; "geom"].
  destruct (str_in (tag e) _) eqn:Et; cbn [rbind].
  - apply str_in_In in Et.
    destruct (forallb _ _) eqn:Ea.
    + rewrite forallb_forall in Ea. split; [|reflexivity].
      intros _. split; [exact Et|]. intros attr Hin.
      apply attr_valid_spec. now apply Ea.
    + split; [discriminate|]. intros [_ H].
      assert (Hall : forallb (attr_valid (tag e)) (keys (attrib e)) = true).
      { apply forallb_forall. intros attr Hin. apply attr_valid_spec. now apply H. }
      congruence.
  - split; [discriminate|]. intros [H _]. apply str_in_In in H. congruence.
Qed.

(** X4.  The schema check passes exactly when every element of the
    document, at any depth and whatever its parent, has one of the six
    tags and only attributes listed for its tag, a geom being allowed in
    addition every attribute whose name before the first underscore is
    vispy; where it does not pass it raises the schema assertion. *)
Theorem schema_check_is_per_element :
  forall xml_tree : Element F,
    (_assert_all_tags_attrs_valid xml_tree = Ok tt <->
     forall e, In e (iter xml_tree) ->
       In (tag e) ["x_xy"; "options"; "defaults"; "worldbody"; "body"; "geom"] /\
       forall attr, In attr (keys (attrib e)) ->
         (tag e = "geom" /\ is_vispy attr = true) \/
         (exists allowed, sget valid_attrs (tag e) = Some allowed /\ In attr allowed))
    /\ (_assert_all_tags_attrs_valid xml_tree = Ok tt \/
        _assert_all_tags_attrs_valid xml_tree = Err (AssertionError SchemaViolation)).
Proof.
  intros xml_tree. unfold _assert_all_tags_attrs_valid.
  split; [|apply check_all_cases].
  rewrite check_all_Forall, Forall_forall.
  split; intros H e Hin; apply node_valid_spec; now apply H.
Qed.

(** X5.  An attribute counts as a vispy attribute exactly when it is
    named vispy or its name starts with vispy_; such an attribute passes
    the schema check on a geom and fails it on every other tag. *)
Theorem vispy_attributes_pass_on_geoms_only :
  (forall attr,
      is_vispy attr = true <-> attr = "vispy" \/ exists rest, attr = ("vispy_" ++ rest)%string) /\
  (forall rest, attr_valid "geom" ("vispy_" ++ rest)%string = true) /\
  (forall tg rest, tg <> "geom" -> attr_valid tg ("vispy_" ++ rest)%string = false) /\
  (forall tg attrs cs rest,
      tg <> "geom" -> In ("vispy_" ++ rest)%string (keys attrs) ->
      node_valid (Node tg attrs cs : Element F) = Err (AssertionError SchemaViolation)).
Proof.
  assert (Hother : forall tg rest, tg <> "geom" -> attr_valid tg ("vispy_" ++ rest)%string = false).
  { intros tg rest Hg. unfold attr_valid.
    apply String.eqb_neq in Hg. rewrite Hg. cbn [andb orb].
    unfold dict_get_default, valid_attrs. cbn [dict_get].
    repeat match goal with
           | |- context [String.eqb ?a tg] => destruct (String.eqb a tg)
           end; reflexivity. }
  split; [|split; [|split]].
  - intros attr. split; [apply is_vispy_inv|].
    intros [->|[rest ->]]; [reflexivity|apply is_vispy_prefixed].
  - intros rest. unfold attr_valid. now rewrite is_vispy_prefixed.
  - exact Hother.
  - intros tg attrs cs rest Hg Hin.
    destruct (node_valid_cases (Node tg attrs cs : Element F)) as [E|E]; [|exact E].
    apply node_valid_spec in E. destruct E as [_ E]. cbn [tag attrib] in E.
    specialize (E _ Hin). apply attr_valid_spec in E.
    rewrite (Hother _ _ Hg) in E. discriminate.
Qed.
End Schema.

(** ** More on dicts *)

Lemma sset_fresh V (d : sdict V) k v :
  ~ In k (keys d) -> sset d k v = d ++ [(k, v)].
Proof.
  unfold sset, keys.
  induction d as [|[k' w] d IH]; simpl; intros Hn; [reflexivity|].
  destruct (String.eqb k' k) eqn:E.
  - apply String.eqb_eq in E. tauto.
  - rewrite IH; tauto.
Qed.

Lemma sget_app V (d1 d2 : sdict V) k :
  sget (d1 ++ d2) k = match sget d1 k with Some v => Some v | None => sget d2 k end.
Proof.
  unfold sget. induction d1 as [|[k' w] d1 IH]; simpl; [reflexivity|].
  now destruct (String.eqb k' k).
Qed.

Lemma smem_In V (d : sdict V) k : smem d k = true <-> In k (keys d).
Proof.
  rewrite smem_sget. split.
  - intros H. destruct (in_dec string_dec k (keys d)) as [Hin|Hn]; [exact Hin|].
    now apply sget_not_in_keys in Hn.
  - apply sget_in_keys.
Qed.

Lemma smem_false V (d : sdict V) k : smem d k = false <-> ~ In k (keys d).
Proof.
  rewrite <- smem_In. destruct (smem d k); split; congruence.
Qed.

Lemma keys_app K V (d1 d2 : dict K V) : keys (d1 ++ d2) = keys d1 ++ keys d2.
Proof. unfold keys. apply map_app. Qed.

Lemma keys_filter K V (f : K * V -> bool) (d : dict K V) k :
  In k (keys (filter f d)) -> In k (keys d).
Proof.
  unfold keys. rewrite !in_map_iff. intros (kv & E & Hin).
  apply filter_In in Hin. exists kv. tauto.
Qed.

(** ** More on the defaults merge *)

Section MixInOrder.
Variable F : Type.
Implicit Types attr d : sdict (Value F).

Lemma mix_fold attr d2 : forall d1,
  NoDup (keys (d1 ++ d2)) ->
  fold_left (mix_step (d1 ++ d2)) (keys d2)
            (attr ++ filter (fun kv => negb (smem attr (fst kv))) d1)
  = attr ++ filter (fun kv => negb (smem attr (fst kv))) (d1 ++ d2).
Proof.
  induction d2 as [|[k v] d2 IH]; intros d1 Hnd.
  - now rewrite app_nil_r.
  - assert (Hk : ~ In k (keys d1)).
    { rewrite keys_app in Hnd. cbn [keys map fst] in Hnd.
      apply NoDup_remove_2 in Hnd. rewrite in_app_iff in Hnd. tauto. }
    assert (Hget : sget (d1 ++ (k, v) :: d2) k = Some v).
    { rewrite sget_app, sget_not_in_keys by exact Hk.
      unfold sget. cbn [dict_get]. now rewrite String.eqb_refl. }
    replace (d1 ++ (k, v) :: d2) with ((d1 ++ [(k, v)]) ++ d2) in *
      by now rewrite <- app_assoc.
    rewrite <- (IH (d1 ++ [(k, v)]) Hnd).
    cbn [keys map fst fold_left]. f_equal.
    rewrite filter_app. cbn [filter fst].
    unfold mix_step.
    destruct (smem attr k) eqn:Ea; cbn [negb].
    + rewrite app_nil_r.
      assert (Hm : smem (attr ++ filter (fun kv => negb (smem attr (fst kv))) d1) k = true).
      { apply smem_In. rewrite keys_app, in_app_iff. left. now apply smem_In. }
      now rewrite Hm.
    + assert (Hn : ~ In k (keys (attr ++ filter (fun kv => negb (smem attr (fst kv))) d1))).
      { rewrite keys_app, in_app_iff. intros [H|H].
        - now apply smem_false in Ea.
        - now apply keys_filter in H. }
      rewrite (proj2 (smem_false _ _) Hn), Hget.
      rewrite sset_fresh by exact Hn. now rewrite <- app_assoc.
Qed.

(** X6.  The defaults merge never reorders or overwrites: the
    attributes of a node after the merge are its own attributes, in
    their order and with their values, followed by the defaults whose
    names the node lacks, in the order of the defaults. *)
Theorem mix_in_appends_the_missing_defaults :
  forall attr d,
    NoDup (keys d) ->
    mix_attrib attr d = attr ++ filter (fun kv => negb (smem attr (fst kv))) d.
Proof.
  intros attr d Hnd. unfold mix_attrib.
  pose proof (mix_fold attr d [] Hnd) as H.
  cbn [app filter] in H. now rewrite app_nil_r in H.
Qed.

End MixInOrder.

Section MixInCoercion.
Variable F : Type.
Variable float : string -> option F.
Implicit Types attr d : sdict (Value F).

Lemma keys_convert_attrib attr : keys (convert_attrib float attr) = keys attr.
Proof.
  unfold keys, convert_attrib. rewrite map_map. reflexivity.
Qed.

Lemma smem_convert_attrib attr k : smem (convert_attrib float attr) k = smem attr k.
Proof.
  unfold smem, dict_mem. fold (sget (convert_attrib float attr) k). fold (sget attr k).
  rewrite sget_convert_attrib. now destruct (sget attr k).
Qed.

Lemma convert_attrib_sset attr k v :
  convert_attrib float (sset attr k v)
  = sset (convert_attrib float attr) k (convert_value float v).
Proof.
  unfold sset, convert_attrib.
  induction attr as [|[k' w] attr IH]; cbn [dict_set map fst snd]; [reflexivity|].
  destruct (String.eqb k' k); cbn [map fst snd]; [reflexivity|]. now rewrite IH.
Qed.

Lemma convert_mix_step d attr k :
  convert_attrib float (mix_step d attr k)
  = mix_step (convert_attrib float d) (convert_attrib float attr) k.
Proof.
  unfold mix_step. rewrite smem_convert_attrib, sget_convert_attrib.
  destruct (smem attr k); [reflexivity|].
  destruct (sget d k); cbn [option_map]; [apply convert_attrib_sset|reflexivity].
Qed.

Lemma convert_mix_attrib attr d :
  convert_attrib float (mix_attrib attr d)
  = mix_attrib (convert_attrib float attr) (convert_attrib float d).
Proof.
  unfold mix_attrib. rewrite keys_convert_attrib.
  revert attr. induction (keys d) as [|k ks IH]; intros attr; cbn [fold_left];
    [reflexivity|].
  now rewrite IH, convert_mix_step.
Qed.

(** X7.  Numeric coercion and the defaults merge commute: merging
    defaults and then converting every attribute gives the tree that
    converting first, tree and defaults, and merging afterwards gives. *)
Theorem coercion_commutes_with_defaults_merge :
  forall (default_attrs : DefaultAttrs F) (worldbody : Element F),
    _convert_attrs_to_arrays float (_mix_in_defaults default_attrs worldbody)
    = _mix_in_defaults
        (mkDefaults (convert_attrib float (geom_defaults default_attrs))
                    (convert_attrib float (body_defaults default_attrs)))
        (_convert_attrs_to_arrays float worldbody).
Proof.
  intros default_attrs worldbody.
  induction worldbody as [t a cs IH] using Element_forall_ind.
  cbn [_mix_in_defaults _convert_attrs_to_arrays]. f_equal.
  - unfold mix_node. cbn [geom_defaults body_defaults].
    destruct (String.eqb t "body"); [apply convert_mix_attrib|].
    destruct (String.eqb t "geom"); [apply convert_mix_attrib|reflexivity].
  - rewrite !map_map. apply map_ext_in. intros c Hc.
    rewrite Forall_forall in IH. now apply IH.
Qed.
End MixInCoercion.

(** ** More on numeric coercion *)

Lemma split_on_single sep s piece : split_on sep s = [piece] -> piece = s.
Proof.
  revert piece. induction s as [|c s IH]; intros piece; cbn [split_on].
  - now intros [= <-].
  - destruct (Ascii.eqb c sep).
    + intros [= <- H]. now apply split_on_nonempty in H.
    + destruct (split_on sep s) as [|p ps] eqn:E; [now apply split_on_nonempty in E|].
      intros [= <- ->]. now rewrite (IH p eq_refl).
Qed.

Lemma split_on_app sep s1 s2 :
  split_on sep (s1 ++ String sep s2)%string = split_on sep s1 ++ split_on sep s2.
Proof.
  induction s1 as [|c s1 IH]; cbn [append split_on].
  - now rewrite Ascii.eqb_refl.
  - rewrite IH. destruct (Ascii.eqb c sep); [reflexivity|].
    destruct (split_on sep s1) as [|p ps] eqn:E; [now apply split_on_nonempty in E|].
    reflexivity.
Qed.

Section CoercionShape.
Variable F : Type.
Variable float : string -> option F.

Lemma convert_value_idempotent (v : Value F) :
  convert_value float (convert_value float v) = convert_value float v.
Proof.
  destruct v as [s|a]; [|reflexivity].
  cbn [convert_value]. destruct (floats float (split_on " " s)) eqn:E; [reflexivity|].
  cbn [convert_value]. now rewrite E.
Qed.

(** X8.  Numeric coercion is idempotent: an array has no [split], the
    exception is swallowed, and a second pass over a converted tree
    changes nothing. *)
Theorem coercion_is_idempotent :
  forall xml_tree : Element F,
    _convert_attrs_to_arrays float (_convert_attrs_to_arrays float xml_tree)
    = _convert_attrs_to_arrays float xml_tree.
Proof.
  intros xml_tree. induction xml_tree as [t a cs IH] using Element_forall_ind.
  cbn [_convert_attrs_to_arrays]. f_equal.
  - unfold convert_attrib. rewrite map_map. apply map_ext.
    intros [k v]. cbn [fst snd]. now rewrite convert_value_idempotent.
  - rewrite map_map. apply map_ext_in. intros c Hc.
    rewrite Forall_forall in IH. now apply IH.
Qed.

(** X9.  The array that coercion makes of a text has one entry per
    piece between single spaces; it is 0-dimensional exactly for a text
    without a space that is one literal, and 1-dimensional with two or
    more entries otherwise.  A 1-dimensional array with no entry or with
    one entry never comes out. *)
Theorem converted_arrays_are_scalars_or_longer :
  forall s a,
    convert_value float (VStr s) = VArr a ->
    value_size (VArr a) = List.length (split_on " " s) /\
    ((exists x, a = Scalar x /\ split_on " " s = [s] /\ float s = Some x) \/
     (exists xs, a = Vec xs /\ 2 <= List.length xs)).
Proof.
  intros s a. cbn [convert_value].
  destruct (floats float (split_on " " s)) as [array|] eqn:E; [|discriminate].
  intros [= <-]. apply floats_Some in E.
  pose proof (Forall2_length E) as Hlen.
  destruct array as [|x [|y l]]; cbn [squeeze value_size List.length] in *.
  - destruct (split_on " " s) eqn:Es; [now apply split_on_nonempty in Es|discriminate].
  - split; [now rewrite Hlen|]. left. exists x.
    destruct (split_on " " s) as [|p [|q ps]] eqn:Es; try discriminate.
    apply split_on_single in Es. subst p.
    inversion E; subst. auto.
  - split; [now rewrite Hlen|]. right. exists (x :: y :: l).
    split; [reflexivity|]. cbn [List.length]. lia.
Qed.

Lemma floats_with_bad_piece pieces piece :
  In piece pieces -> float piece = None -> floats float pieces = None.
Proof.
  intros Hin Hbad. induction pieces as [|p ps IH]; [contradiction|].
  cbn [floats]. destruct Hin as [->|Hin].
  - now rewrite Hbad.
  - destruct (float p); [|reflexivity]. now rewrite (IH Hin).
Qed.

(** X10.  Where [float] rejects the empty text, as Python's does, a
    value that is empty, starts or ends with a space, or has two spaces
    in a row is never converted: the empty piece that [split(" ")]
    leaves makes the whole value stay text. *)
Theorem stray_space_keeps_the_text :
  float "" = None ->
  forall s,
    s = "" \/
    (exists r, s = (" " ++ r)%string) \/
    (exists r, s = (r ++ " ")%string) \/
    (exists r1 r2, s = (r1 ++ "  " ++ r2)%string) ->
    convert_value float (VStr s : Value F) = VStr s.
Proof.
  intros Hempty s Hs.
  assert (Hin : In EmptyString (split_on " " s)).
  { destruct Hs as [->|[[r ->]|[[r ->]|[r1 [r2 ->]]]]].
    - now left.
    - now left.
    - change (r ++ " ")%string with (r ++ String " " EmptyString)%string.
      rewrite split_on_app. apply in_or_app. right. now left.
    - change (r1 ++ "  " ++ r2)%string
        with (r1 ++ String " " (String " " r2))%string.
      rewrite split_on_app. apply in_or_app. right. now left. }
  cbn [convert_value]. now rewrite (@floats_with_bad_piece _ EmptyString Hin Hempty).
Qed.
End CoercionShape.

(** ** The vispy attributes of a geom *)

Lemma split_head_vispy rest : split_head "_" ("vispy_" ++ rest)%string = "vispy".
Proof. cbn [append]. rewrite !split_head_cons. reflexivity. Qed.

Lemma delete_prefix_vispy rest : delete_prefix ("vispy_" ++ rest)%string = rest.
Proof. unfold delete_prefix. rewrite split_head_vispy. reflexivity. Qed.

Section Vispy.
Variable V : Type.

Lemma vispy_fold (l : sdict V) rest :
  NoDup (keys l) -> rest <> "" ->
  forall acc,
    sget (fold_left
            (fun acc kv => if is_vispy (fst kv)
                           then sset acc (delete_prefix (fst kv)) (snd kv)
                           else acc) l acc) rest
    = match sget l ("vispy_" ++ rest)%string with
      | Some v => Some v
      | None => sget acc rest
      end.
Proof.
  intros Hnd Hrest. induction l as [|[k v] l IH]; intros acc; [reflexivity|].
  cbn [keys map fst] in Hnd. inversion Hnd as [|? ? Hk Hnd']; subst.
  cbn [fold_left fst snd]. rewrite (IH Hnd').
  unfold sget at 3. cbn [dict_get]. fold (sget l ("vispy_" ++ rest)%string).
  destruct (String.eqb k ("vispy_" ++ rest)%string) eqn:E.
  - apply String.eqb_eq in E. subst k.
    rewrite (@sget_not_in_keys _ l _ Hk), is_vispy_prefixed, delete_prefix_vispy.
    apply sget_sset_same.
  - destruct (sget l ("vispy_" ++ rest)%string); [reflexivity|].
    destruct (is_vispy k) eqn:Ev; [|reflexivity].
    apply sget_sset_other.
    apply is_vispy_inv in Ev. destruct Ev as [->|[r ->]].
    + intros H. apply Hrest. symmetry. exact H.
    + rewrite delete_prefix_vispy. intros ->. now rewrite String.eqb_refl in E.
Qed.
End Vispy.

Section VispySubdict.
Variable F : Type.

(** X11.  The dict [_vispy_subdict] hands to a geometry holds, under
    each non-empty name, the value of the attribute vispy_name and
    nothing else: attributes without the prefix never get in, and an
    absent vispy_name is absent from the dict. *)
Theorem vispy_subdict_strips_the_prefix :
  forall (attr : sdict (Value F)) rest,
    NoDup (keys attr) -> rest <> "" ->
    sget (_vispy_subdict attr) rest = sget attr ("vispy_" ++ rest)%string.
Proof.
  intros attr rest Hnd Hrest. unfold _vispy_subdict.
  rewrite (@vispy_fold _ attr rest Hnd Hrest).
  now destruct (sget attr ("vispy_" ++ rest)%string).
Qed.
End VispySubdict.

(** ** Geometries *)

Section Geometries.
Variable F : Type.
Implicit Types g_attr : sdict (Value F).

Lemma geom_map_unknown shape :
  ~ known_shape shape -> geom_map (VStr shape : Value F) = Err (KeyError shape).
Proof.
  intros H. cbn [geom_map].
  destruct (String.eqb shape "box") eqn:Eb;
    [apply String.eqb_eq in Eb; exfalso; apply H; now left|].
  destruct (String.eqb shape "sphere") eqn:Es;
    [apply String.eqb_eq in Es; exfalso; apply H; right; now left|].
  destruct (String.eqb shape "cylinder") eqn:Ec;
    [apply String.eqb_eq in Ec; exfalso; apply H; right; now right|].
  reflexivity.
Qed.

(** X12.  The type of a geom is looked up in [geom_map] before mass,
    pos and dim are read: a type outside box, sphere and cylinder raises
    [KeyError] with that type, and a type that reads as a number, which
    coercion has turned into an array, raises [TypeError], whatever the
    other attributes are. *)
Theorem unknown_geom_type_raises_first :
  forall g_attr,
    (forall shape,
        sget g_attr "type" = Some (VStr shape) -> ~ known_shape shape ->
        make_geom g_attr = Err (KeyError shape)) /\
    (forall a,
        sget g_attr "type" = Some (VArr a) -> make_geom g_attr = Err TypeError).
Proof.
  intros g_attr. split.
  - intros shape Ht Hs. unfold make_geom.
    rewrite (sget_getitem _ _ Ht). cbn [rbind].
    now rewrite (geom_map_unknown Hs).
  - intros a Ht. unfold make_geom. now rewrite (sget_getitem _ _ Ht).
Qed.

(** X13.  What a geometry needs of dim.  A dim that was a single
    number is a 0-dimensional array and builds no geometry: a sphere and
    a cylinder raise [IndexError], a box [TypeError].  From a dim of two
    or more numbers a sphere takes the first as its radius, a cylinder
    the first two as radius and length, both ignoring the rest, and a
    box is handed all of them. *)
Theorem geometry_needs_a_dim_of_two_numbers :
  forall g_attr m p,
    sget g_attr "mass" = Some m ->
    sget g_attr "pos" = Some p ->
    (forall x,
        sget g_attr "dim" = Some (VArr (Scalar x)) ->
        (sget g_attr "type" = Some (VStr "sphere") -> make_geom g_attr = Err IndexError) /\
        (sget g_attr "type" = Some (VStr "cylinder") -> make_geom g_attr = Err IndexError) /\
        (sget g_attr "type" = Some (VStr "box") -> make_geom g_attr = Err TypeError)) /\
    (forall x y l,
        sget g_attr "dim" = Some (VArr (Vec (x :: y :: l))) ->
        (sget g_attr "type" = Some (VStr "sphere") ->
         make_geom g_attr = Ok (Sphere m p (VArr (Scalar x)) (_vispy_subdict g_attr))) /\
        (sget g_attr "type" = Some (VStr "cylinder") ->
         make_geom g_attr
         = Ok (Cylinder m p (VArr (Scalar x)) (VArr (Scalar y)) (_vispy_subdict g_attr))) /\
        (sget g_attr "type" = Some (VStr "box") ->
         make_geom g_attr
         = Ok (Box m p (map (fun z => VArr (Scalar z)) (x :: y :: l))
                   (_vispy_subdict g_attr)))).
Proof.
  intros g_attr m p Hm Hp. unfold make_geom, getitem.
  split; [intros x Hd|intros x y l Hd];
    (split; [|split]); intros Ht; now rewrite Ht, Hm, Hp, Hd.
Qed.

Lemma make_geom_shape g_attr geom :
  make_geom g_attr = Ok geom -> sget g_attr "type" = Some (VStr (shape_of geom)).
Proof.
  unfold make_geom, getitem.
  destruct (sget g_attr "type") as [[shape|a]|]; cbn [rbind geom_map]; try discriminate.
  destruct (String.eqb shape "box") eqn:Eb.
  { apply String.eqb_eq in Eb. subst shape. cbn [rbind].
    destruct (sget g_attr "mass"); cbn [rbind]; [|discriminate].
    destruct (sget g_attr "pos"); cbn [rbind]; [|discriminate].
    destruct (sget g_attr "dim"); cbn [rbind]; [|discriminate].
    destruct (unpack _); cbn [rbind]; [|discriminate]. now intros [= <-]. }
  destruct (String.eqb shape "sphere") eqn:Es.
  { apply String.eqb_eq in Es. subst shape. cbn [rbind].
    destruct (sget g_attr "mass"); cbn [rbind]; [|discriminate].
    destruct (sget g_attr "pos"); cbn [rbind]; [|discriminate].
    destruct (sget g_attr "dim"); cbn [rbind]; [|discriminate].
    destruct (index_value _ 0); cbn [rbind]; [|discriminate]. now intros [= <-]. }
  destruct (String.eqb shape "cylinder") eqn:Ec; [|discriminate].
  apply String.eqb_eq in Ec. subst shape. cbn [rbind].
  destruct (sget g_attr "mass"); cbn [rbind]; [|discriminate].
  destruct (sget g_attr "pos"); cbn [rbind]; [|discriminate].
  destruct (sget g_attr "dim"); cbn [rbind]; [|discriminate].
  destruct (index_value _ 0); cbn [rbind]; [|discriminate].
  destruct (index_value _ 1); cbn [rbind]; [|discriminate]. now intros [= <-].
Qed.

Lemma make_geoms_each (gs : list (Element F)) l :
  make_geoms gs = Ok l ->
  Forall2 (fun geom g => make_geom (attrib g) = Ok geom) l gs.
Proof.
  revert l. induction gs as [|g gs IH]; intros l; cbn [make_geoms].
  - intros [= <-]. constructor.
  - destruct (make_geom (attrib g)) as [geom|] eqn:E; cbn [rbind]; [|discriminate].
    destruct (make_geoms gs) as [l'|]; cbn [rbind]; [|discriminate].
    intros [= <-]. constructor; auto.
Qed.
End Geometries.

(** ** From the document to the tree that is traversed *)

Section Prepared.
Variable F : Type.
Variable float : string -> option F.
Implicit Types (e w : Element F) (d : DefaultAttrs F).

Local Abbreviation prepared' := (prepared float).

Lemma prepared_node d t a cs :
  prepared' d (Node t a cs)
  = Node t
      (mix_node (mkDefaults (convert_attrib float (geom_defaults d))
                            (convert_attrib float (body_defaults d)))
                t (convert_attrib float a))
      (map (prepared' d) cs).
Proof.
  unfold prepared. cbn [_convert_attrs_to_arrays _mix_in_defaults].
  now rewrite map_map.
Qed.

Lemma tag_prepared d e : tag (prepared' d e) = tag e.
Proof. destruct e. now rewrite prepared_node. Qed.

Lemma children_prepared d e :
  children (prepared' d e) = map (prepared' d) (children e).
Proof. destruct e. now rewrite prepared_node. Qed.

Lemma filter_tag_prepared d key (cs : list (Element F)) :
  filter (fun c => String.eqb (tag c) key) (map (prepared' d) cs)
  = map (prepared' d) (filter (fun c => String.eqb (tag c) key) cs).
Proof.
  induction cs as [|c cs IH]; cbn [map filter]; [reflexivity|].
  rewrite tag_prepared. destruct (String.eqb (tag c) key); cbn [map]; now rewrite IH.
Qed.

Lemma findall_prepared d key e :
  findall key (prepared' d e) = map (prepared' d) (findall key e).
Proof. unfold findall. rewrite children_prepared. apply filter_tag_prepared. Qed.

Lemma bodies_under_prepared d e :
  bodies_under (prepared' d e) = map (prepared' d) (bodies_under e).
Proof.
  induction e as [t a cs IH] using Element_forall_ind.
  rewrite prepared_node. cbn [bodies_under map]. rewrite <- prepared_node. f_equal.
  induction IH as [|c cs Hc _ IHcs]; cbn [map flat_map]; [reflexivity|].
  rewrite map_app, IHcs, tag_prepared.
  destruct (String.eqb (tag c) "body"); [now rewrite Hc|reflexivity].
Qed.

Lemma bodies_of_prepared d (cs : list (Element F)) :
  bodies_of (map (prepared' d) cs) = map (prepared' d) (bodies_of cs).
Proof.
  unfold bodies_of.
  induction cs as [|c cs IH]; cbn [map flat_map]; [reflexivity|].
  rewrite map_app, IH, tag_prepared.
  destruct (String.eqb (tag c) "body"); [now rewrite bodies_under_prepared|reflexivity].
Qed.

Lemma bodies_of_tags (cs : list (Element F)) :
  Forall (fun b => tag b = "body") (bodies_of cs).
Proof.
  assert (Hunder : forall e, tag e = "body" -> Forall (fun b => tag b = "body") (bodies_under e)).
  { intros e. induction e as [t a cs' IH] using Element_forall_ind.
    intros Ht. cbn [bodies_under]. constructor; [exact Ht|]. clear Ht.
    induction IH as [|c cs'' Hc _ IHcs]; cbn [flat_map]; [constructor|].
    apply Forall_app. split; [|exact IHcs].
    destruct (String.eqb (tag c) "body") eqn:E; [|constructor].
    apply Hc. now apply String.eqb_eq. }
  unfold bodies_of. induction cs as [|c cs IH]; cbn [flat_map]; [constructor|].
  apply Forall_app. split; [|exact IH].
  destruct (String.eqb (tag c) "body") eqn:E; [|constructor].
  apply Hunder. now apply String.eqb_eq.
Qed.

(** The attribute that the traversal finds on a body: the body's own,
    else the default for bodies, converted either way. *)
Lemma prepared_body_attribute d e k :
  tag e = "body" ->
  sget (attrib (prepared' d e)) k
  = option_map (convert_value float)
      (match sget (attrib e) k with
       | Some v => Some v
       | None => sget (body_defaults d) k
       end).
Proof.
  destruct e as [t a cs]. cbn [tag attrib]. intros ->.
  rewrite prepared_node. cbn [attrib]. unfold mix_node.
  cbn [String.eqb Ascii.eqb Bool.eqb body_defaults].
  destruct (sget a k) as [v|] eqn:E.
  - apply mix_attrib_keep. now rewrite sget_convert_attrib, E.
  - rewrite mix_attrib_fill by now rewrite sget_convert_attrib, E.
    apply sget_convert_attrib.
Qed.

Lemma find_unique_single (tree : Element F) key r :
  _find_assert_unique tree key [] = Ok r ->
  match r with
  | Some e => findall key tree = [e]
  | None => findall key tree = []
  end.
Proof.
  cbn [_find_assert_unique].
  destruct (findall key tree) as [|x [|y l]]; [| |discriminate]; now intros [= <-].
Qed.

Lemma checks_inv xml_tree options d worldbody :
  checks xml_tree = Ok (options, d, worldbody) ->
  (exists oe, findall "options" xml_tree = [oe] /\ options = attrib oe) /\
  _build_defaults_attributes xml_tree = Ok d /\
  _find_assert_unique xml_tree "worldbody" [] = Ok worldbody /\
  _assert_all_tags_attrs_valid xml_tree = Ok tt.
Proof.
  unfold checks.
  destruct (_find_assert_unique xml_tree "options" []) as [[oe|]|] eqn:Eo; cbn [rbind];
    try discriminate.
  destruct (_build_defaults_attributes xml_tree) as [d'|] eqn:Ed; cbn [rbind];
    [|discriminate].
  destruct (_find_assert_unique xml_tree "worldbody" []) as [w|] eqn:Ew; cbn [rbind];
    [|discriminate].
  destruct (_assert_all_tags_attrs_valid xml_tree) as [[]|] eqn:Ev; cbn [rbind];
    [|discriminate].
  intros [= <- <- <-].
  split; [|auto]. exists oe. split; [|reflexivity].
  exact (find_unique_single _ _ Eo).
Qed.

Lemma resolve_prepared options d worldbody :
  resolve float (options, d, worldbody)
  = match worldbody with
    | Some w => Ok (convert_attrib float options, prepared' d w)
    | None => Err AttributeError
    end.
Proof. destruct worldbody; reflexivity. Qed.

(** The options and the worldbody that the traversal works on, in terms
    of the document. *)
Lemma prepare_inv xml_tree options worldbody :
  prepare float xml_tree = Ok (options, worldbody) ->
  exists oe d w,
    findall "options" xml_tree = [oe] /\
    _build_defaults_attributes xml_tree = Ok d /\
    findall "worldbody" xml_tree = [w] /\
    _assert_all_tags_attrs_valid xml_tree = Ok tt /\
    options = convert_attrib float (attrib oe) /\
    worldbody = prepared' d w.
Proof.
  unfold prepare.
  destruct (checks xml_tree) as [[[o d] w]|] eqn:Ec; cbn [rbind]; [|discriminate].
  rewrite resolve_prepared.
  destruct w as [w|]; [|discriminate]. intros [= <- <-].
  destruct (checks_inv _ Ec) as ((oe & Ho & ->) & Hd & Hw & Hv).
  exists oe, d, w. repeat split; auto.
  exact (find_unique_single _ _ Hw).
Qed.
End Prepared.

(** ** More on the loaded system *)

Section LoadedMore.
Variable F : Type.
Variable float : string -> option F.
Variables f0 f1 : F.
Variable QD_WIDTHS : sdict nat.
Variable quat_euler_deg2rad : Value F -> result (Value F).
Implicit Types (s : Store F) (body : Element F) (es : list (Entry F)).

Local Abbreviation load :=
  (load_sys_from_str float f0 f1 QD_WIDTHS quat_euler_deg2rad).
Local Abbreviation process_body' :=
  (process_body f0 f1 QD_WIDTHS quat_euler_deg2rad).
Local Abbreviation body_entry' :=
  (body_entry f0 f1 QD_WIDTHS quat_euler_deg2rad).
Local Abbreviation walk' := (walk f0 f1 QD_WIDTHS quat_euler_deg2rad).
Local Abbreviation walk_top :=
  (walk_bodies (fun c next => walk' c (-1) next)).
Local Abbreviation load_inv' :=
  (@load_inv F float f0 f1 QD_WIDTHS quat_euler_deg2rad).
Local Abbreviation walk_top_listed' :=
  (@walk_top_listed F f0 f1 QD_WIDTHS quat_euler_deg2rad).
Local Abbreviation body_entry_inv' :=
  (@body_entry_inv F f0 f1 QD_WIDTHS quat_euler_deg2rad).

(** *** Parents *)

(** The records [es] of the bodies [bs]: each is a root, recorded with
    the parent id [parent], or a direct body child of a body listed
    before it, recorded with that body's id. *)
Local Abbreviation enclosed parent next roots es bs :=
  (forall j e b,
      nth_error es j = Some e -> nth_error bs j = Some b ->
      (e_parent e = parent /\ In b roots) \/
      (exists k pb,
          k < j /\ e_parent e = (next + Z.of_nat k)%Z /\
          nth_error bs k = Some pb /\ In b (findall "body" pb))).

Lemma walk_bodies_enclosed parent cs :
  Forall (fun c => forall p idx l, walk' c p idx = Ok l ->
              enclosed p idx [c] l (bodies_under c)) cs ->
  forall next es,
    walk_bodies (fun c n => walk' c parent n) cs next = Ok es ->
    enclosed parent next (filter (fun c => String.eqb (tag c) "body") cs)
             es (bodies_of cs).
Proof.
  induction 1 as [|c cs Hc _ IH]; intros next es H j e b Hj Hb.
  - injection H as <-. now destruct j.
  - unfold bodies_of in *. cbn [walk_bodies flat_map filter] in *.
    destruct (String.eqb (tag c) "body") eqn:Etag.
    + destruct (walk' c parent next) as [l1|] eqn:E1; cbn [rbind] in H; [|discriminate].
      destruct (walk_bodies _ cs _) as [l2|] eqn:E2; cbn [rbind] in H; [|discriminate].
      injection H as <-.
      pose proof (Forall2_length
                    (@walk_listed F f0 f1 QD_WIDTHS quat_euler_deg2rad c _ _ _ E1))
        as Hlen.
      destruct (Nat.lt_ge_cases j (List.length l1)) as [Hlt|Hge].
      * rewrite nth_error_app1 in Hj by exact Hlt.
        rewrite nth_error_app1 in Hb by lia.
        destruct (Hc _ _ _ E1 _ _ _ Hj Hb) as [[Hp [<-|[]]]|(k & pb & Hk & Hp & Hpb & Hin)].
        -- left. split; [exact Hp|now left].
        -- right. exists k, pb. repeat split; auto.
           rewrite nth_error_app1 by lia. exact Hpb.
      * rewrite nth_error_app2 in Hj by exact Hge.
        rewrite nth_error_app2 in Hb by lia.
        rewrite <- Hlen in Hb.
        destruct (IH _ _ E2 _ _ _ Hj Hb) as [[Hp Hin]|(k & pb & Hk & Hp & Hpb & Hin)].
        -- left. split; [exact Hp|now right].
        -- right. exists (List.length l1 + k), pb.
           split; [lia|]. split; [rewrite Hp; lia|]. split; [|exact Hin].
           rewrite nth_error_app2 by lia.
           now replace (List.length l1 + k - List.length (bodies_under c)) with k by lia.
    + exact (IH _ _ H _ _ _ Hj Hb).
Qed.

Lemma walk_enclosed body :
  forall parent idx es,
    walk' body parent idx = Ok es ->
    enclosed parent idx [body] es (bodies_under body).
Proof.
  induction body as [t attr cs IH] using Element_forall_ind.
  intros parent idx es H j e b Hj Hb. cbn [walk] in H.
  destruct (body_entry' (Node t attr cs) parent) as [e0|] eqn:E; cbn [rbind] in H;
    [|discriminate].
  destruct (walk_bodies _ cs _) as [rest|] eqn:Er; cbn [rbind] in H; [|discriminate].
  injection H as <-. cbn [bodies_under] in Hb.
  destruct j as [|j]; cbn [nth_error] in Hj, Hb.
  - injection Hj as <-. injection Hb as <-. left.
    split; [exact (@body_entry_parent F f0 f1 QD_WIDTHS quat_euler_deg2rad _ _ _ E)|now left].
  - right.
    destruct (walk_bodies_enclosed idx IH _ Er _ Hj Hb)
      as [[Hp Hin]|(k & pb & Hk & Hp & Hpb & Hin)].
    + exists 0, (Node t attr cs). split; [lia|]. split; [rewrite Hp; lia|].
      split; [reflexivity|exact Hin].
    + exists (S k), pb. split; [lia|]. split; [rewrite Hp; lia|].
      split; [exact Hpb|exact Hin].
Qed.

(** X14.  The parent recorded for a link is the id of the body element
    that directly contains its body: in a document that loads, the i-th
    body in pre-order is either a direct body child of the worldbody,
    with parent -1, or a direct body child of the p-th body in
    pre-order, where p is its parent id and p < i. *)
Theorem parent_is_the_enclosing_body :
  forall xml_tree sys,
    load xml_tree = Ok sys ->
    exists options worldbody,
      prepare float xml_tree = Ok (options, worldbody) /\
      let bodies := bodies_of (children worldbody) in
      forall i p b,
        nth_error (sys_link_parents sys) i = Some p ->
        nth_error bodies i = Some b ->
        (p = (-1)%Z /\ In b (findall "body" worldbody)) \/
        (exists k pb,
            k < i /\ p = Z.of_nat k /\
            nth_error bodies k = Some pb /\ In b (findall "body" pb)).
Proof.
  intros xml_tree sys Hload.
  destruct (load_inv' _ Hload) as (options & worldbody & es & Hprep & Hwalk & Hsys).
  destruct (system_of_inv _ _ Hsys) as (_ & Hpar & _).
  exists options, worldbody. split; [exact Hprep|]. cbv zeta.
  intros i p b Hi Hb. rewrite Hpar, nth_error_map in Hi.
  destruct (nth_error es i) as [e|] eqn:Ee; [|discriminate]. injection Hi as <-.
  assert (Hall : Forall (fun c => forall p idx l, walk' c p idx = Ok l ->
                            enclosed p idx [c] l (bodies_under c)) (children worldbody)).
  { rewrite Forall_forall. intros c _ p idx l. apply walk_enclosed. }
  destruct (walk_bodies_enclosed (-1)%Z Hall _ Hwalk _ Ee Hb)
    as [[Hp Hin]|(k & pb & Hk & Hp & Hpb & Hin)].
  - left. split; [exact Hp|exact Hin].
  - right. exists k, pb. split; [exact Hk|]. split; [rewrite Hp; lia|]. auto.
Qed.

(** *** Transforms *)

Lemma body_entry_pos body parent e :
  body_entry' body parent = Ok e ->
  pos (e_link e) = dict_get_default String.eqb (attrib body) "pos" (zero_pos f0).
Proof.
  unfold body_entry.
  destruct (getitem (attrib body) "joint"); cbn [rbind]; [|discriminate].
  destruct (getitem (attrib body) "name"); cbn [rbind]; [|discriminate].
  destruct (orientation _ _ _ _); cbn [rbind]; [|discriminate].
  destruct (qd_width _ _); cbn [rbind]; [|discriminate].
  destruct (atleast_1d _); cbn [rbind]; [|discriminate].
  destruct (atleast_1d _); cbn [rbind]; [|discriminate].
  destruct (make_geoms _); cbn [rbind]; [|discriminate].
  now intros [= <-].
Qed.

(** X15.  In a document that loads, the position of a link is the pos
    attribute of its body as it stands, and three zeros where the body
    has none; a quat attribute is taken as the orientation as it stands,
    and no body that has one has an euler attribute as well; an euler
    attribute alone is handed to the orientation maths. *)
Theorem position_and_quaternion_are_taken_as_given :
  forall xml_tree sys,
    load xml_tree = Ok sys ->
    exists options worldbody,
      prepare float xml_tree = Ok (options, worldbody) /\
      Forall2 (fun link b =>
                 pos link = dict_get_default String.eqb (attrib b) "pos" (zero_pos f0) /\
                 (forall q, sget (attrib b) "quat" = Some q ->
                            rot link = q /\ sget (attrib b) "euler" = None) /\
                 (forall eu, sget (attrib b) "quat" = None ->
                             sget (attrib b) "euler" = Some eu ->
                             quat_euler_deg2rad eu = Ok (rot link)))
              (sys_links sys) (bodies_of (children worldbody)).
Proof.
  intros xml_tree sys Hload.
  destruct (load_inv' _ Hload) as (options & worldbody & es & Hprep & Hwalk & Hsys).
  destruct (system_of_inv _ _ Hsys) as (_ & _ & Hl & _).
  pose proof (walk_top_listed' _ Hwalk) as Hlisted.
  exists options, worldbody. split; [exact Hprep|].
  rewrite Hl. clear - Hlisted.
  induction Hlisted as [|e b es bs He _ IH]; cbn [map]; constructor; [|exact IH].
  split; [exact (body_entry_pos _ _ He)|].
  apply body_entry_inv' in He. destruct He as (_ & _ & Ho & _).
  unfold orientation in Ho. split.
  - intros q Hq. rewrite Hq in Ho. unfold smem, dict_mem in Ho.
    fold (sget (attrib b) "euler") in Ho.
    destruct (sget (attrib b) "euler"); cbn in Ho; [discriminate|].
    injection Ho as <-. auto.
  - intros eu Hq Heu. now rewrite Hq, Heu in Ho.
Qed.

(** *** Damping and armature of a body that gives none *)

Lemma concat_repeat (l : list nat) :
  concat (map (repeat f0) l) = repeat f0 (sum l).
Proof.
  induction l as [|n l IH]; cbn [map concat sum fold_right]; [reflexivity|].
  unfold sum in IH. now rewrite IH, repeat_app.
Qed.

Lemma body_entry_zeros key body parent e :
  body_entry' body parent = Ok e ->
  sget (attrib body) key = None ->
  (key = "damping" -> e_damping e = repeat f0 (width QD_WIDTHS (e_type e))) /\
  (key = "armature" -> e_armature e = repeat f0 (width QD_WIDTHS (e_type e))).
Proof.
  intros He Hnone. apply body_entry_inv' in He.
  destruct He as (_ & _ & _ & (qd & Hq & Ha & Hd) & _).
  unfold width. rewrite Hq. unfold dict_get_default in Ha, Hd.
  split; intros ->; unfold sget in Hnone; rewrite Hnone in *; cbn in *; congruence.
Qed.

(** X16.  In a document that loads and in which no body has a damping
    attribute after the defaults merge, the damping vector of the system
    is all zeros, as many as the degrees of freedom of the link types
    add up to; the same holds for the armature. *)
Theorem missing_damping_and_armature_are_zeros :
  forall xml_tree sys,
    load xml_tree = Ok sys ->
    exists options worldbody,
      prepare float xml_tree = Ok (options, worldbody) /\
      let bodies := bodies_of (children worldbody) in
      let total := sum (map (width QD_WIDTHS) (sys_link_types sys)) in
      ((forall b, In b bodies -> sget (attrib b) "damping" = None) ->
       sys_link_damping sys = repeat f0 total) /\
      ((forall b, In b bodies -> sget (attrib b) "armature" = None) ->
       sys_link_armature sys = repeat f0 total).
Proof.
  intros xml_tree sys Hload.
  destruct (load_inv' _ Hload) as (options & worldbody & es & Hprep & Hwalk & Hsys).
  destruct (system_of_inv _ _ Hsys) as (_ & _ & _ & Hty & _ & _ & Hd & Ha).
  pose proof (walk_top_listed' _ Hwalk) as Hlisted.
  exists options, worldbody. split; [exact Hprep|]. cbv zeta.
  rewrite Hd, Ha, Hty, map_map, <- concat_repeat, <- map_map.
  split; intros Hnone; f_equal; rewrite map_map; clear - Hlisted Hnone;
    induction Hlisted as [|e b es bs He _ IH]; cbn [map]; try reflexivity;
    (f_equal; [|apply IH; intros b' Hb'; apply Hnone; now right]).
  - apply (body_entry_zeros "damping" _ _ He); [apply Hnone; now left|reflexivity].
  - apply (body_entry_zeros "armature" _ _ He); [apply Hnone; now left|reflexivity].
Qed.

(** *** Joint types *)

(** X17.  Every link type of a loaded system is a text that is a key of
    the table of joint widths: a joint type outside the table, or one
    that reads as a number, never gets into a system. *)
Theorem link_types_are_keys_of_the_width_table :
  forall xml_tree sys,
    load xml_tree = Ok sys ->
    Forall (fun ty => exists joint n, ty = VStr joint /\ sget QD_WIDTHS joint = Some n)
           (sys_link_types sys).
Proof.
  intros xml_tree sys Hload.
  destruct (load_inv' _ Hload) as (options & worldbody & es & Hprep & Hwalk & Hsys).
  destruct (system_of_inv _ _ Hsys) as (_ & _ & _ & Hty & _).
  pose proof (walk_top_listed' _ Hwalk) as Hlisted.
  rewrite Hty. clear - Hlisted.
  induction Hlisted as [|e b es bs He _ IH]; cbn [map]; constructor; [|exact IH].
  apply body_entry_inv' in He. destruct He as (_ & _ & _ & (qd & Hq & _) & _).
  destruct (e_type e) as [joint|a]; cbn [qd_width] in Hq; [|discriminate].
  exists joint, qd. split; [reflexivity|]. now apply getitem_Ok.
Qed.

(** *** Geometries of a link *)

(** X18.  In a document that loads, a link owns one geometry for each
    direct geom child of its body, in document order, each of the shape
    that the type attribute of the child names. *)
Theorem link_geometries_follow_the_geom_children :
  forall xml_tree sys,
    load xml_tree = Ok sys ->
    exists options worldbody,
      prepare float xml_tree = Ok (options, worldbody) /\
      Forall2 (fun link_geoms b =>
                 Forall2 (fun geom g =>
                            sget (attrib g) "type" = Some (VStr (shape_of geom)))
                         link_geoms (findall "geom" b))
              (sys_geoms sys) (bodies_of (children worldbody)).
Proof.
  intros xml_tree sys Hload.
  destruct (load_inv' _ Hload) as (options & worldbody & es & Hprep & Hwalk & Hsys).
  destruct (system_of_inv _ _ Hsys) as (_ & _ & _ & _ & _ & Hg & _).
  pose proof (walk_top_listed' _ Hwalk) as Hlisted.
  exists options, worldbody. split; [exact Hprep|].
  rewrite Hg. clear - Hlisted.
  induction Hlisted as [|e b es bs He _ IH]; cbn [map]; constructor; [|exact IH].
  apply body_entry_inv' in He. destruct He as (_ & _ & _ & _ & Hgs).
  apply make_geoms_each in Hgs.
  induction Hgs as [|geom g l gs Hgeom _ IHg]; constructor; [|exact IHg].
  now apply make_geom_shape.
Qed.

(** *** The order assertion *)

(** X19.  The assertion of [assert_order_then_to_list] holds for each
    of the seven dicts that the traversal fills, whatever the worldbody:
    each has the keys 0, 1, ..., n-1 in that order, so flattening a dict
    gives its values in the order of the link ids. *)
Theorem traversal_dicts_pass_the_order_assertion :
  forall worldbody s,
    for_bodies (fun body => process_body' body (-1)) (children worldbody)
               (empty_store F) = Ok (tt, s) ->
    assert_order_then_to_list (links s) = Ok (values (links s)) /\
    assert_order_then_to_list (link_parents s) = Ok (values (link_parents s)) /\
    assert_order_then_to_list (link_names s) = Ok (values (link_names s)) /\
    assert_order_then_to_list (link_types s) = Ok (values (link_types s)) /\
    assert_order_then_to_list (geoms s) = Ok (values (geoms s)) /\
    assert_order_then_to_list (armatures s) = Ok (values (armatures s)) /\
    assert_order_then_to_list (dampings s) = Ok (values (dampings s)).
Proof.
  intros worldbody s.
  rewrite (@for_bodies_walk F f0 f1 QD_WIDTHS quat_euler_deg2rad (-1)%Z
             (children worldbody)).
  - destruct (walk_bodies _ (children worldbody) _) as [es|]; cbn [push_result];
      [|discriminate].
    intros [= <-].
    pose proof (push_wf es (@empty_store_wf F)) as [_ H1 H2 H3 H4 H5 H6 H7].
    repeat split; eapply assert_order_wf; eassumption.
  - rewrite Forall_forall. intros c _ p s' Hwf. now apply process_body_walk.
  - apply empty_store_wf.
Qed.

(** *** Documents without options, worldbody or bodies *)

(** X20.  The options node is looked up first: a document without one
    raises [AttributeError] and a document with two the assertion of
    [_find_assert_unique], whatever else it holds.  A document that
    passes the lookups and the schema check but has no worldbody raises
    [AttributeError] from the defaults merge. *)
Theorem missing_options_or_worldbody :
  forall xml_tree,
    (findall "options" xml_tree = [] -> load xml_tree = Err AttributeError) /\
    (2 <= List.length (findall "options" xml_tree) ->
     load xml_tree = Err (AssertionError StructuralViolation)) /\
    (forall options default_attrs,
        findall "options" xml_tree = [options] ->
        _build_defaults_attributes xml_tree = Ok default_attrs ->
        findall "worldbody" xml_tree = [] ->
        _assert_all_tags_attrs_valid xml_tree = Ok tt ->
        load xml_tree = Err AttributeError).
Proof.
  intros xml_tree. unfold load_sys_from_str, prepare, checks.
  cbn [_find_assert_unique]. split; [|split].
  - now intros ->.
  - intros H. destruct (findall "options" xml_tree) as [|x [|y l]];
      cbn [List.length] in H; (reflexivity || lia).
  - intros options default_attrs -> -> -> ->. reflexivity.
Qed.

Lemma walk_top_no_bodies (cs : list (Element F)) next :
  filter (fun c => String.eqb (tag c) "body") cs = [] ->
  walk_top cs next = Ok [].
Proof.
  induction cs as [|c cs IH]; cbn [filter walk_bodies]; [reflexivity|].
  destruct (String.eqb (tag c) "body"); [discriminate|exact IH].
Qed.

(** X21.  A document whose worldbody has no body child does not load:
    once lookups, schema check, coercion and defaults merge have passed,
    the traversal records nothing and [links[0]] raises [IndexError]. *)
Theorem worldbody_without_bodies_is_an_index_error :
  forall xml_tree options default_attrs worldbody,
    checks xml_tree = Ok (options, default_attrs, Some worldbody) ->
    findall "body" worldbody = [] ->
    load xml_tree = Err IndexError.
Proof.
  intros xml_tree options default_attrs worldbody Hc Hnone.
  unfold load_sys_from_str, prepare. rewrite Hc. cbn [rbind].
  rewrite resolve_prepared. cbn [rbind fst snd]. rewrite build_walk.
  rewrite walk_top_no_bodies; [reflexivity|].
  fold (findall "body" (prepared float default_attrs worldbody)).
  now rewrite findall_prepared, Hnone.
Qed.

(** *** The system in terms of the document *)

Lemma system_of_options options es sys :
  system_of options es = Ok sys ->
  sget options "dt" = Some (sys_dt sys) /\
  sget options "gravity" = Some (sys_gravity sys).
Proof.
  unfold system_of. destruct es as [|e es]; [discriminate|].
  destruct (getitem options "dt") as [dt|] eqn:Edt; cbn [rbind]; [|discriminate].
  destruct (getitem options "gravity") as [g|] eqn:Eg; cbn [rbind]; [|discriminate].
  intros [= <-]. cbn [sys_dt sys_gravity]. auto using getitem_Ok.
Qed.

(** X22.  The time step and the gravity of a loaded system are the dt
    and gravity attributes of the one options node after numeric
    coercion; a document whose options node lacks one of them does not
    load. *)
Theorem time_step_and_gravity_are_the_converted_options :
  forall xml_tree sys,
    load xml_tree = Ok sys ->
    exists options dt gravity,
      findall "options" xml_tree = [options] /\
      sget (attrib options) "dt" = Some dt /\
      sget (attrib options) "gravity" = Some gravity /\
      sys_dt sys = convert_value float dt /\
      sys_gravity sys = convert_value float gravity.
Proof.
  intros xml_tree sys Hload.
  destruct (load_inv' _ Hload) as (options & worldbody & es & Hprep & Hwalk & Hsys).
  destruct (prepare_inv _ _ Hprep) as (oe & d & w & Ho & _ & _ & _ & -> & _).
  destruct (system_of_options _ _ Hsys) as [Hdt Hg].
  rewrite sget_convert_attrib in Hdt, Hg.
  destruct (sget (attrib oe) "dt") as [dt|] eqn:Edt; [|discriminate].
  destruct (sget (attrib oe) "gravity") as [gravity|] eqn:Eg; [|discriminate].
  exists oe, dt, gravity. cbn [option_map] in Hdt, Hg.
  repeat split; congruence.
Qed.

(** X23.  A loaded system has one parent, transform, type, name and
    geometry list per body element reachable from the one worldbody of
    the document through body elements only, and at least one; bodies
    below a geom or below any other element are not counted. *)
Theorem one_link_per_body_of_the_document :
  forall xml_tree sys,
    load xml_tree = Ok sys ->
    exists worldbody,
      findall "worldbody" xml_tree = [worldbody] /\
      let n := List.length (bodies_of (children worldbody)) in
      1 <= n /\
      List.length (sys_link_parents sys) = n /\
      List.length (sys_links sys) = n /\
      List.length (sys_link_types sys) = n /\
      List.length (sys_link_names sys) = n /\
      List.length (sys_geoms sys) = n.
Proof.
  intros xml_tree sys Hload.
  destruct (load_inv' _ Hload) as (options & worldbody & es & Hprep & Hwalk & Hsys).
  destruct (prepare_inv _ _ Hprep) as (oe & d & w & _ & _ & Hw & _ & _ & ->).
  destruct (system_of_inv _ _ Hsys) as (Hne & H1 & H2 & H3 & H4 & H5 & _).
  pose proof (Forall2_length (walk_top_listed' _ Hwalk)) as Hlen.
  rewrite children_prepared, bodies_of_prepared, length_map in Hlen.
  exists w. split; [exact Hw|]. cbv zeta.
  rewrite H1, H2, H3, H4, H5, !length_map, <- Hlen.
  repeat split. destruct es; [contradiction|cbn [List.length]; lia].
Qed.

(** X24.  The names and types of the links in terms of the document:
    the i-th link has the name and joint attributes of the i-th body of
    the worldbody in pre-order, the body's own where it has one and the
    default for bodies where it has not, after numeric coercion.  A name
    that reads as a number is therefore recorded as an array. *)
Theorem link_names_and_types_are_the_coerced_attributes :
  forall xml_tree sys,
    load xml_tree = Ok sys ->
    exists worldbody default_attrs,
      findall "worldbody" xml_tree = [worldbody] /\
      _build_defaults_attributes xml_tree = Ok default_attrs /\
      let seen key b :=
        option_map (convert_value float)
                   (match sget (attrib b) key with
                    | Some v => Some v
                    | None => sget (body_defaults default_attrs) key
                    end) in
      Forall2 (fun name b => seen "name" b = Some name)
              (sys_link_names sys) (bodies_of (children worldbody)) /\
      Forall2 (fun ty b => seen "joint" b = Some ty)
              (sys_link_types sys) (bodies_of (children worldbody)).
Proof.
  intros xml_tree sys Hload.
  destruct (load_inv' _ Hload) as (options & worldbody & es & Hprep & Hwalk & Hsys).
  destruct (prepare_inv _ _ Hprep) as (oe & d & w & _ & Hd & Hw & _ & _ & ->).
  destruct (system_of_inv _ _ Hsys) as (_ & _ & _ & Hty & Hn & _).
  pose proof (walk_top_listed' _ Hwalk) as Hlisted.
  rewrite children_prepared, bodies_of_prepared in Hlisted.
  exists w, d. split; [exact Hw|]. split; [exact Hd|]. cbv zeta.
  rewrite Hn, Hty.
  pose proof (bodies_of_tags (children w)) as Htags.
  clear - Hlisted Htags.
  revert es Hlisted.
  induction Htags as [|b bs Hb _ IH]; intros es Hlisted; inversion Hlisted; subst;
    cbn [map]; [split; constructor|].
  match goal with H : body_entry' _ _ = Ok _ |- _ =>
    apply body_entry_inv' in H; destruct H as (Hj & Hnm & _) end.
  rewrite (prepared_body_attribute float d b "joint" Hb) in Hj.
  rewrite (prepared_body_attribute float d b "name" Hb) in Hnm.
  match goal with H : Forall2 _ _ (map _ bs) |- _ =>
    destruct (IH _ H) as [IH1 IH2] end.
  split; constructor; auto.
Qed.
End LoadedMore.

(** ** The root element *)

Section Root.
Variable F : Type.
Variable float : string -> option F.
Variables f0 f1 : F.
Variable QD_WIDTHS : sdict nat.
Variable quat_euler_deg2rad : Value F -> result (Value F).

Local Abbreviation load :=
  (load_sys_from_str float f0 f1 QD_WIDTHS quat_euler_deg2rad).

Lemma find_unique_root t a t' a' (cs : list (Element F)) key keys :
  _find_assert_unique (Node t a cs) key keys
  = _find_assert_unique (Node t' a' cs) key keys.
Proof. now rewrite !find_unique_step. Qed.

Lemma valid_root t a (cs : list (Element F)) :
  _assert_all_tags_attrs_valid (Node t a cs)
  = (node_valid (Node t a ([] : list (Element F))) ;;;
     check_all (flat_map (@iter F) cs))%result.
Proof. reflexivity. Qed.

(** X25.  Of the root element only the schema check looks at tag and
    attributes: two documents with the same children whose roots both
    pass the check of a single element load to the same result.  The
    root need not be tagged x_xy, and its model attribute reaches
    nothing. *)
Theorem root_is_only_schema_checked :
  forall t a t' a' (cs : list (Element F)),
    node_valid (Node t a ([] : list (Element F))) = Ok tt ->
    node_valid (Node t' a' ([] : list (Element F))) = Ok tt ->
    load (Node t a cs) = load (Node t' a' cs).
Proof.
  intros t a t' a' cs H H'.
  unfold load_sys_from_str, prepare, checks, _build_defaults_attributes, defaults_of.
  rewrite !(find_unique_root t a t' a' cs), !valid_root, H, H'.
  reflexivity.
Qed.
End Root.

(** ** The order of the children of the root *)

From Stdlib Require Import Permutation.

Section RootOrder.
Variable F : Type.
Variable float : string -> option F.
Variables f0 f1 : F.
Variable QD_WIDTHS : sdict nat.
Variable quat_euler_deg2rad : Value F -> result (Value F).

Local Abbreviation load :=
  (load_sys_from_str float f0 f1 QD_WIDTHS quat_euler_deg2rad).

Lemma filter_perm A (f : A -> bool) (l l' : list A) :
  Permutation l l' -> Permutation (filter f l) (filter f l').
Proof.
  induction 1 as [|x l l' _ IH|x y l|l l' l'' _ IH1 _ IH2]; cbn [filter].
  - constructor.
  - destruct (f x); [now constructor|exact IH].
  - destruct (f x), (f y); try apply Permutation_refl. apply perm_swap.
  - now apply Permutation_trans with (filter f l').
Qed.

Lemma find_unique_perm t a (cs cs' : list (Element F)) key keys :
  Permutation cs cs' ->
  _find_assert_unique (Node t a cs) key keys
  = _find_assert_unique (Node t a cs') key keys.
Proof.
  intros H. rewrite !find_unique_step. unfold findall. cbn [children].
  pose proof (filter_perm (fun c => String.eqb (tag c) key) H) as P.
  destruct (filter _ cs) as [|x [|y l]].
  - now rewrite (Permutation_nil P).
  - now rewrite (Permutation_length_1_inv P).
  - apply Permutation_length in P.
    destruct (filter _ cs') as [|x' [|y' l']]; cbn [List.length] in P;
      (reflexivity || discriminate).
Qed.

Lemma check_all_perm (l l' : list (Element F)) :
  Permutation l l' -> check_all l = check_all l'.
Proof.
  intros H.
  destruct (check_all_cases l) as [E|E], (check_all_cases l') as [E'|E'];
    rewrite E, E'; try reflexivity; exfalso.
  - apply check_all_Forall in E.
    assert (X : check_all l' = Ok tt)
      by (apply check_all_Forall; exact (Permutation_Forall H E)).
    congruence.
  - apply check_all_Forall in E'.
    assert (X : check_all l = Ok tt)
      by (apply check_all_Forall; exact (Permutation_Forall (Permutation_sym H) E')).
    congruence.
Qed.

(** X26.  The order of the children of the root does not matter: the
    options, defaults and worldbody nodes are found by tag wherever they
    stand, and the schema check has one exception only, so a document
    and the same document with the children of its root rearranged load
    to the same result, system or exception. *)
Theorem order_of_the_root_children_is_irrelevant :
  forall t a (cs cs' : list (Element F)),
    Permutation cs cs' ->
    load (Node t a cs) = load (Node t a cs').
Proof.
  intros t a cs cs' H.
  unfold load_sys_from_str, prepare, checks, _build_defaults_attributes, defaults_of.
  rewrite !(find_unique_perm t a _ _ H).
  replace (_assert_all_tags_attrs_valid (Node t a cs))
    with (_assert_all_tags_attrs_valid (Node t a cs')); [reflexivity|].
  unfold _assert_all_tags_attrs_valid. cbn [iter check_all].
  destruct (node_valid (Node t a cs')) eqn:E.
  - replace (node_valid (Node t a cs)) with (node_valid (Node t a cs')) by reflexivity.
    rewrite E. cbn [rbind]. apply check_all_perm.
    apply Permutation_flat_map. now apply Permutation_sym.
  - replace (node_valid (Node t a cs)) with (node_valid (Node t a cs')) by reflexivity.
    now rewrite E.
Qed.
End RootOrder.
(** ** The documents of [Example] *)

Import Example.

Local Abbreviation zero := (Qmake 0 1).
Local Abbreviation one := (Qmake 1 1).
Local Abbreviation process_example :=
  (process_body zero one QD_WIDTHS quat_euler_deg2rad).

(** A sphere whose dim was a single literal: the literal became a
    0-dimensional array, which [dim[0]] cannot index. *)
Lemma sphere_scalar_dim_raises F (g_attr : sdict (Value F)) m p x :
  sget g_attr "type" = Some (VStr "sphere") ->
  sget g_attr "mass" = Some m ->
  sget g_attr "pos" = Some p ->
  sget g_attr "dim" = Some (VArr (Scalar x)) ->
  make_geom g_attr = Err IndexError.
Proof.
  intros Ht Hm Hp Hd. unfold make_geom, getitem. now rewrite Ht, Hm, Hp, Hd.
Qed.

(** C3.  The scenario document does not load: the dim ["0.1"] of the
    sphere is converted to a 0-dimensional array and [dim[0]] raises
    [IndexError], where the specification expects a tree of two links
    whose link 1 owns a sphere of radius 0.1. *)
Theorem scenario_raises_index_error :
  load scenario = Err IndexError.
Proof. vm_compute. reflexivity. Qed.

(** Whatever the table of joint widths and the orientation maths, the
    scenario document does not load: no error before the sphere can turn
    [dim[0]] on a 0-dimensional array into a value. *)
Lemma scenario_raises_for_every_joint_table :
  forall (widths : sdict nat) (euler : Value Q -> result (Value Q)) sys,
    load_sys_from_str float zero one widths euler scenario <> Ok sys.
Proof.
  intros widths euler sys H.
  destruct (load_inv _ _ _ _ _ _ H) as (o & w & es & Hprep & Hwalk & _).
  vm_compute in Hprep. injection Hprep as _ <-.
  pose proof (walk_top_listed _ _ _ _ _ Hwalk) as Hlisted.
  set (b := Node "body" [("name", str "b"); ("joint", str "hinge")]
              [Node "geom" [("type", str "sphere"); ("mass", VArr (Scalar one));
                            ("pos", VArr (Vec [zero; zero; zero]));
                            ("dim", VArr (Scalar (Qmake 1 10)))] []]).
  assert (Hb : In b (bodies_of (children
             (Node "worldbody" []
                [Node "body" [("name", str "a"); ("joint", str "free");
                              ("pos", VArr (Vec [zero; zero; one]))] [b]]))))
    by (right; left; reflexivity).
  destruct (@listed_body _ _ _ _ _ Hlisted Hb) as (e & He).
  apply body_entry_inv in He. destruct He as (_ & _ & _ & _ & Hg).
  vm_compute in Hg. discriminate.
Qed.

(** The same document with a second literal in dim loads, with the
    parents and names the specification gives for the scenario. *)
Lemma scenario_with_two_dims_loads :
  exists sys,
    load (document
            [options;
             Node "worldbody" []
               [Node "body" [("name", str "a"); ("joint", str "free"); ("pos", str "0 0 1")]
                  [Node "body" [("name", str "b"); ("joint", str "hinge")]
                     [Node "geom" [("type", str "sphere"); ("mass", str "1.0");
                                   ("pos", str "0 0 0"); ("dim", str "0.1 0.1")] []]]]])
    = Ok sys /\
    sys_link_parents sys = [-1; 0]%Z /\
    sys_link_names sys = [str "a"; str "b"].
Proof. eexists. split; [vm_compute; reflexivity|]. split; reflexivity. Qed.

(** The four-link document loads, and the theorem bounds its parents. *)
Lemma link_ids_dense_preorder_witness :
  exists sys,
    load four_links = Ok sys /\
    sys_link_parents sys = [-1; 0; 0; -1]%Z /\
    forall i p, nth_error (sys_link_parents sys) i = Some p ->
                (-1 <= p < Z.of_nat i)%Z.
Proof.
  assert (E : exists sys, load four_links = Ok sys)
    by (eexists; vm_compute; reflexivity).
  destruct E as [sys E]. exists sys. split; [exact E|].
  destruct (@link_ids_dense_preorder Q float zero one QD_WIDTHS quat_euler_deg2rad
              four_links sys E)
    as (options' & worldbody & s & _ & _ & _ & _ & _ & Hbound & _).
  split; [|exact Hbound].
  vm_compute in E. injection E as <-. reflexivity.
Defined.

(** C2 as stated fails: a free joint with [damping="0.5"] loads with one
    damping entry for six degrees of freedom. *)
Lemma damping_length_counterexample :
  exists sys,
    load explicit_damping = Ok sys /\
    List.length (sys_link_damping sys) = 1 /\
    sum (map (width QD_WIDTHS) (sys_link_types sys)) = 6 /\
    List.length (sys_link_damping sys)
    <> sum (map (width QD_WIDTHS) (sys_link_types sys)).
Proof.
  eexists. split; [vm_compute; reflexivity|].
  split; [reflexivity|]. split; [reflexivity|]. vm_compute. discriminate.
Qed.

(** Without damping attributes the four links have 6 + 1 + 1 + 6 entries. *)
Lemma damping_armature_lengths_witness :
  exists sys,
    load four_links = Ok sys /\
    List.length (sys_link_damping sys)
    = sum (map (width QD_WIDTHS) (sys_link_types sys)) /\
    List.length (sys_link_damping sys) = 14.
Proof.
  assert (E : exists sys, load four_links = Ok sys)
    by (eexists; vm_compute; reflexivity).
  destruct E as [sys E]. exists sys. split; [exact E|].
  destruct (@damping_armature_lengths Q float zero one QD_WIDTHS quat_euler_deg2rad
              four_links sys E)
    as (options' & worldbody & Hprep & _ & _ & Hnone & _).
  split.
  - apply Hnone.
    vm_compute in Hprep. injection Hprep as _ <-.
    intros b Hb. vm_compute in Hb.
    repeat (destruct Hb as [<-|Hb]; [reflexivity|]). contradiction.
  - vm_compute in E. injection E as <-. reflexivity.
Defined.

(** C4 as stated fails: the default 0.1 reaches the free joint as a
    single entry, not as six. *)
Lemma default_damping_counterexample :
  exists sys,
    load default_damping = Ok sys /\
    sys_link_types sys = [str "free"; str "hinge"] /\
    map (width QD_WIDTHS) (sys_link_types sys) = [6; 1] /\
    sys_link_damping sys = [Qmake 1 10; Qmake 1 2].
Proof.
  eexists. split; [vm_compute; reflexivity|]. repeat split.
Qed.

(** The theorem at the decimal reading of the literals. *)
Lemma default_damping_taken_as_given_witness :
  float "0.1" = Some (Qmake 1 10) /\
  float "0.5" = Some (Qmake 1 2) /\
  (forall qd_size,
      atleast_1d (dict_get_default String.eqb
                    (attrib (_mix_in_defaults
                               (mkDefaults (convert_attrib float [])
                                           (convert_attrib float [("damping", str "0.1")]))
                               (_convert_attrs_to_arrays float
                                  (Node "body" [("name", str "a"); ("joint", str "free")] []))))
                    "damping" (VArr (zeros zero qd_size)))
      = Ok [Qmake 1 10]).
Proof.
  split; [reflexivity|]. split; [reflexivity|].
  apply (@default_damping_taken_as_given Q float zero one QD_WIDTHS quat_euler_deg2rad
           (Qmake 1 10) (Qmake 1 2) [] [("damping", str "0.1")]
           [("name", str "a"); ("joint", str "free")] []
           eq_refl eq_refl eq_refl).
  reflexivity.
Defined.



(** C6 as stated fails: without an options node the attribute access on
    [None] comes before the schema check. *)
Lemma unknown_tag_counterexample :
  In "motor" (map (@tag Q) (iter motor_without_options)) /\
  str_in "motor" (keys valid_attrs) = false /\
  load motor_without_options = Err AttributeError /\
  load motor_without_options <> Err (AssertionError SchemaViolation).
Proof.
  split; [vm_compute; tauto|]. split; [reflexivity|].
  split; [vm_compute; reflexivity|vm_compute; discriminate].
Qed.

(** With options and worldbody in place the motor tag fails the schema
    check. *)
Lemma unknown_tag_is_schema_violation_witness :
  checks motor = Err (AssertionError SchemaViolation) /\
  load motor = Err (AssertionError SchemaViolation).
Proof.
  apply (@unknown_tag_is_schema_violation Q float zero one QD_WIDTHS quat_euler_deg2rad
           motor options (mkDefaults [] [])
           (Some (Node "worldbody" []
                    [Node "body" [("name", str "a"); ("joint", str "free")] []]))
           (Node "motor" [] []));
    try reflexivity.
  vm_compute. tauto.
Defined.

(** C7 as stated fails: three literals separated by whitespace, two
    spaces after the first, stay text. *)
Lemma convert_whitespace_counterexample :
  spec_whitespace_separated_floats float "0  0 1" = true /\
  _convert_attrs_to_arrays float wide_spacing = wide_spacing.
Proof. split; vm_compute; reflexivity. Qed.

(** An explicit damping is kept, a missing armature is filled, and a
    worldbody node is left alone. *)
Lemma mix_in_defaults_fills_absent_only_witness :
  sget (mix_attrib [("damping", str "0.5")]
                   [("damping", str "0.1"); ("armature", str "0.2")]) "damping"
  = Some (str "0.5") /\
  sget (mix_attrib [("damping", str "0.5")]
                   [("damping", str "0.1"); ("armature", str "0.2")]) "armature"
  = Some (str "0.2") /\
  mix_node (mkDefaults [] [("damping", str "0.1")]) "worldbody" [("x", str "y")]
  = [("x", str "y")].
Proof.
  destruct (mix_in_defaults_fills_absent_only Q) as (Hkeep & Hfill & Hother & _).
  split; [apply Hkeep; reflexivity|].
  split; [rewrite Hfill; reflexivity|].
  apply Hother; discriminate.
Defined.

(** The four-link document with and without [<defaults/>]. *)
Lemma empty_defaults_subtree_is_neutral_witness :
  findall "defaults" (Node "x_xy" [] ([options] ++ [four_links_worldbody])) = [] /\
  load (Node "x_xy" [] ([options] ++ empty_defaults Q :: [four_links_worldbody]))
  = load (Node "x_xy" [] ([options] ++ [four_links_worldbody])).
Proof.
  split; [reflexivity|].
  apply (@empty_defaults_subtree_is_neutral Q float zero one QD_WIDTHS quat_euler_deg2rad
           "x_xy" [] [options] [four_links_worldbody] eq_refl).
Defined.

(** C10 as stated fails: a geom without attributes directly below the
    worldbody is never read, and the document loads. *)
Lemma required_attributes_counterexample :
  exists sys g,
    load stray_geom = Ok sys /\
    In g (iter stray_geom) /\ tag g = "geom" /\
    sget (attrib g) "type" = None /\ sget (attrib g) "mass" = None /\
    sget (attrib g) "pos" = None /\ sget (attrib g) "dim" = None.
Proof.
  eexists. exists (Node "geom" [] []).
  split; [vm_compute; reflexivity|].
  split; [vm_compute; tauto|]. repeat split.
Qed.

(** A body without joint, a box without mass, and the four-link
    document. *)
Lemma required_attributes_witness :
  process_example (Node "body" [("name", str "a")] []) (-1) (empty_store Q)
  = Err (KeyError "joint") /\
  make_geom [("type", str "box"); ("pos", VArr (Vec [zero; zero; zero]))]
  = Err (KeyError "mass") /\
  (exists sys, load four_links = Ok sys /\
     exists worldbody : Element Q,
       forall b, In b (bodies_of (children worldbody)) ->
                 sget (attrib b) "name" <> None).
Proof.
  destruct (@required_attributes Q float zero one QD_WIDTHS quat_euler_deg2rad)
    as (Hjoint & _ & _ & Hgeom & Hload).
  split; [apply Hjoint; reflexivity|].
  split.
  - apply (Hgeom [("type", str "box"); ("pos", VArr (Vec [zero; zero; zero]))] "box");
      [reflexivity|left; reflexivity|reflexivity].
  - assert (E : exists sys, load four_links = Ok sys)
      by (eexists; vm_compute; reflexivity).
    destruct E as [sys E]. exists sys. split; [exact E|].
    destruct (Hload four_links sys E) as (options' & worldbody & _ & Hall).
    exists worldbody. intros b Hb. now apply Hall.
Defined.

(** ** The further properties at the documents of [Example] *)

(** Two options nodes, and a lookup below a defaults subtree that is
    not there. *)
Lemma find_assert_unique_raises_on_duplicates_only_witness :
  _find_assert_unique (document [options; options]) "options" []
  = Err (AssertionError StructuralViolation) /\
  _find_assert_unique four_links "defaults" ["body"] = Ok None.
Proof.
  destruct (@find_assert_unique_raises_on_duplicates_only
              Q [] (document [options; options]) "options") as (_ & Hmany & _).
  destruct (@find_assert_unique_raises_on_duplicates_only
              Q ["body"] four_links "defaults") as (Hnone & _).
  split; [apply Hmany; cbn; lia|apply Hnone; reflexivity].
Defined.

(** The defaults for bodies of the document with a default damping. *)
Lemma find_assert_unique_returns_the_match_witness :
  _find_assert_unique default_damping "defaults" ["body"]
  = Ok (Some (Node "body" [("damping", str "0.1")] [])) /\
  tag (Node "body" [("damping", str "0.1")] [] : Element Q) = "body" /\
  In (Node "body" [("damping", str "0.1")] []) (iter default_damping).
Proof.
  split; [reflexivity|].
  destruct (@find_assert_unique_returns_the_match
              Q ["body"] default_damping "defaults"
              (Node "body" [("damping", str "0.1")] []) eq_refl) as (Ht & Hin & _).
  split; [exact Ht|exact Hin].
Defined.

(** Two defaults subtrees, though both are empty. *)
Lemma build_defaults_reads_the_unique_children_witness :
  _build_defaults_attributes default_damping
  = Ok (mkDefaults [] [("damping", str "0.1")]) /\
  _build_defaults_attributes
    (document [options; empty_defaults Q; empty_defaults Q; four_links_worldbody])
  = Err (AssertionError StructuralViolation).
Proof.
  split; [reflexivity|].
  destruct (@build_defaults_reads_the_unique_children Q
              (document [options; empty_defaults Q; empty_defaults Q;
                         four_links_worldbody])) as (_ & Hmany & _).
  apply Hmany. cbn. lia.
Defined.

(** The four-link document passes, so its worldbody has an allowed
    tag. *)
Lemma schema_check_is_per_element_witness :
  _assert_all_tags_attrs_valid four_links = Ok tt /\
  In (tag four_links_worldbody)
     ["x_xy"; "options"; "defaults"; "worldbody"; "body"; "geom"].
Proof.
  assert (E : _assert_all_tags_attrs_valid four_links = Ok tt)
    by (vm_compute; reflexivity).
  split; [exact E|].
  destruct (@schema_check_is_per_element Q four_links) as [[H _] _].
  apply (H E four_links_worldbody).
  right. right. left. reflexivity.
Defined.

(** The attribute vispy_color on a geom and on a body. *)
Lemma vispy_attributes_pass_on_geoms_only_witness :
  is_vispy "vispy_color" = true /\
  attr_valid "geom" "vispy_color" = true /\
  attr_valid "body" "vispy_color" = false.
Proof.
  destruct (vispy_attributes_pass_on_geoms_only Q) as (Hiff & Hgeom & Hother & _).
  split; [apply Hiff; right; now exists "color"|].
  split; [exact (Hgeom "color")|].
  apply (Hother "body" "color"). discriminate.
Defined.

(** A body with a damping of its own meets defaults for damping and
    armature. *)
Lemma mix_in_appends_the_missing_defaults_witness :
  NoDup (keys [("damping", str "0.1"); ("armature", str "0.2")]) /\
  mix_attrib [("name", str "a"); ("damping", str "0.5")]
             [("damping", str "0.1"); ("armature", str "0.2")]
  = [("name", str "a"); ("damping", str "0.5"); ("armature", str "0.2")].
Proof.
  assert (H : NoDup (keys [("damping", str "0.1"); ("armature", str "0.2")]))
    by (repeat constructor; cbn; intuition discriminate).
  split; [exact H|].
  exact (@mix_in_appends_the_missing_defaults Q
           [("name", str "a"); ("damping", str "0.5")]
           [("damping", str "0.1"); ("armature", str "0.2")] H).
Defined.

(** The gravity of the example options: three pieces, three entries. *)
Lemma converted_arrays_are_scalars_or_longer_witness :
  exists a,
    convert_value float (str "0 0 9.81") = VArr a /\
    value_size (VArr a) = 3.
Proof.
  assert (E : exists a, convert_value float (str "0 0 9.81") = VArr a)
    by (eexists; vm_compute; reflexivity).
  destruct E as [a E]. exists a. split; [exact E|].
  exact (proj1 (@converted_arrays_are_scalars_or_longer Q float "0 0 9.81" a E)).
Defined.

(** A position with a space after the last number. *)
Lemma stray_space_keeps_the_text_witness :
  float "" = None /\
  convert_value float (str "0 0 1 ") = str "0 0 1 ".
Proof.
  split; [reflexivity|].
  apply (@stray_space_keeps_the_text Q float eq_refl "0 0 1 ").
  right. right. left. now exists "0 0 1".
Defined.

(** The colour of the box of the four-link document. *)
Lemma vispy_subdict_strips_the_prefix_witness :
  sget (_vispy_subdict
          [("type", str "box"); ("mass", str "1.0"); ("pos", str "0 0 0");
           ("dim", str "1 0.25 0.2"); ("vispy_color", str "1 0 0")]) "color"
  = Some (str "1 0 0").
Proof.
  rewrite (@vispy_subdict_strips_the_prefix Q
             [("type", str "box"); ("mass", str "1.0"); ("pos", str "0 0 0");
              ("dim", str "1 0.25 0.2"); ("vispy_color", str "1 0 0")] "color").
  - reflexivity.
  - repeat constructor; cbn; intuition discriminate.
  - discriminate.
Defined.

(** A cone, with nothing else given. *)
Lemma unknown_geom_type_raises_first_witness :
  make_geom [("type", str "cone")] = Err (KeyError "cone").
Proof.
  destruct (@unknown_geom_type_raises_first Q [("type", str "cone")]) as (Hunknown & _).
  apply (Hunknown "cone"); [reflexivity|].
  intros [H|[H|H]]; discriminate.
Defined.

(** The sphere of the scenario after coercion, and the same with two
    numbers in dim. *)
Lemma geometry_needs_a_dim_of_two_numbers_witness :
  make_geom [("type", str "sphere"); ("mass", VArr (Scalar one));
             ("pos", VArr (Vec [zero; zero; zero]));
             ("dim", VArr (Scalar (Qmake 1 10)))]
  = Err IndexError /\
  make_geom [("type", str "sphere"); ("mass", VArr (Scalar one));
             ("pos", VArr (Vec [zero; zero; zero]));
             ("dim", VArr (Vec [Qmake 1 10; Qmake 1 5]))]
  = Ok (Sphere (VArr (Scalar one)) (VArr (Vec [zero; zero; zero]))
               (VArr (Scalar (Qmake 1 10))) []).
Proof.
  split.
  - destruct (@geometry_needs_a_dim_of_two_numbers Q
                [("type", str "sphere"); ("mass", VArr (Scalar one));
                 ("pos", VArr (Vec [zero; zero; zero]));
                 ("dim", VArr (Scalar (Qmake 1 10)))]
                (VArr (Scalar one)) (VArr (Vec [zero; zero; zero]))
                eq_refl eq_refl) as (Hscalar & _).
    destruct (Hscalar (Qmake 1 10) eq_refl) as (Hsphere & _).
    now apply Hsphere.
  - destruct (@geometry_needs_a_dim_of_two_numbers Q
                [("type", str "sphere"); ("mass", VArr (Scalar one));
                 ("pos", VArr (Vec [zero; zero; zero]));
                 ("dim", VArr (Vec [Qmake 1 10; Qmake 1 5]))]
                (VArr (Scalar one)) (VArr (Vec [zero; zero; zero]))
                eq_refl eq_refl) as (_ & Hvec).
    destruct (Hvec (Qmake 1 10) (Qmake 1 5) [] eq_refl) as (Hsphere & _).
    now apply Hsphere.
Defined.

(** The four-link document: c, the third body, is a child of a, the
    first. *)
Lemma parent_is_the_enclosing_body_witness :
  exists sys,
    load four_links = Ok sys /\
    sys_link_parents sys = [-1; 0; 0; -1]%Z /\
    exists options worldbody,
      prepare float four_links = Ok (options, worldbody) /\
      forall i p b,
        nth_error (sys_link_parents sys) i = Some p ->
        nth_error (bodies_of (children worldbody)) i = Some b ->
        (p = (-1)%Z /\ In b (findall "body" worldbody)) \/
        (exists k pb,
            k < i /\ p = Z.of_nat k /\
            nth_error (bodies_of (children worldbody)) k = Some pb /\
            In b (findall "body" pb)).
Proof.
  assert (E : exists sys, load four_links = Ok sys)
    by (eexists; vm_compute; reflexivity).
  destruct E as [sys E]. exists sys. split; [exact E|].
  split.
  - vm_compute in E. injection E as <-. reflexivity.
  - exact (@parent_is_the_enclosing_body Q float zero one QD_WIDTHS quat_euler_deg2rad
             four_links sys E).
Defined.

(** The four-link document: a has the position 0 0 1. *)
Lemma position_and_quaternion_are_taken_as_given_witness :
  exists sys,
    load four_links = Ok sys /\
    map (@pos Q) (sys_links sys)
    = [VArr (Vec [zero; zero; one]); zero_pos zero; zero_pos zero; zero_pos zero] /\
    exists options worldbody,
      prepare float four_links = Ok (options, worldbody) /\
      Forall2 (fun link b =>
                 pos link = dict_get_default String.eqb (attrib b) "pos" (zero_pos zero) /\
                 (forall q, sget (attrib b) "quat" = Some q ->
                            rot link = q /\ sget (attrib b) "euler" = None) /\
                 (forall eu, sget (attrib b) "quat" = None ->
                             sget (attrib b) "euler" = Some eu ->
                             quat_euler_deg2rad eu = Ok (rot link)))
              (sys_links sys) (bodies_of (children worldbody)).
Proof.
  assert (E : exists sys, load four_links = Ok sys)
    by (eexists; vm_compute; reflexivity).
  destruct E as [sys E]. exists sys. split; [exact E|].
  split.
  - vm_compute in E. injection E as <-. reflexivity.
  - exact (@position_and_quaternion_are_taken_as_given
             Q float zero one QD_WIDTHS quat_euler_deg2rad four_links sys E).
Defined.

(** The four-link document: fourteen zeros. *)
Lemma missing_damping_and_armature_are_zeros_witness :
  exists sys,
    load four_links = Ok sys /\
    sys_link_damping sys = repeat zero 14.
Proof.
  assert (E : exists sys, load four_links = Ok sys)
    by (eexists; vm_compute; reflexivity).
  destruct E as [sys E]. exists sys. split; [exact E|].
  destruct (@missing_damping_and_armature_are_zeros
              Q float zero one QD_WIDTHS quat_euler_deg2rad four_links sys E)
    as (options' & worldbody & Hprep & Hdamping & _).
  replace 14 with (sum (map (width QD_WIDTHS) (sys_link_types sys)))
    by (vm_compute in E; injection E as <-; reflexivity).
  apply Hdamping.
  vm_compute in Hprep. injection Hprep as _ <-.
  intros b Hb. vm_compute in Hb.
  repeat (destruct Hb as [<-|Hb]; [reflexivity|]). contradiction.
Defined.

(** The four-link document: free and hinge are in the table. *)
Lemma link_types_are_keys_of_the_width_table_witness :
  exists sys,
    load four_links = Ok sys /\
    Forall (fun ty => exists joint n,
                ty = VStr joint /\ sget QD_WIDTHS joint = Some n)
           (sys_link_types sys).
Proof.
  assert (E : exists sys, load four_links = Ok sys)
    by (eexists; vm_compute; reflexivity).
  destruct E as [sys E]. exists sys. split; [exact E|].
  exact (@link_types_are_keys_of_the_width_table
           Q float zero one QD_WIDTHS quat_euler_deg2rad four_links sys E).
Defined.

(** The four-link document: only b owns a geometry, a box. *)
Lemma link_geometries_follow_the_geom_children_witness :
  exists sys,
    load four_links = Ok sys /\
    map (map (@shape_of Q)) (sys_geoms sys) = [[]; ["box"]; []; []] /\
    exists options worldbody,
      prepare float four_links = Ok (options, worldbody) /\
      Forall2 (fun link_geoms b =>
                 Forall2 (fun geom g =>
                            sget (attrib g) "type" = Some (VStr (shape_of geom)))
                         link_geoms (findall "geom" b))
              (sys_geoms sys) (bodies_of (children worldbody)).
Proof.
  assert (E : exists sys, load four_links = Ok sys)
    by (eexists; vm_compute; reflexivity).
  destruct E as [sys E]. exists sys. split; [exact E|].
  split.
  - vm_compute in E. injection E as <-. reflexivity.
  - exact (@link_geometries_follow_the_geom_children
             Q float zero one QD_WIDTHS quat_euler_deg2rad four_links sys E).
Defined.

(** The traversal of the worldbody of the four-link document. *)
Lemma traversal_dicts_pass_the_order_assertion_witness :
  exists s,
    for_bodies (fun body => process_example body (-1))
               (children (prepared float (mkDefaults [] []) four_links_worldbody))
               (empty_store Q) = Ok (tt, s) /\
    keys (link_parents s) = [0; 1; 2; 3]%Z /\
    assert_order_then_to_list (link_parents s) = Ok (values (link_parents s)).
Proof.
  assert (E : exists s,
             for_bodies (fun body => process_example body (-1))
               (children (prepared float (mkDefaults [] []) four_links_worldbody))
               (empty_store Q) = Ok (tt, s))
    by (eexists; vm_compute; reflexivity).
  destruct E as [s E]. exists s. split; [exact E|].
  split.
  - vm_compute in E. injection E as <-. reflexivity.
  - exact (proj1 (proj2
             (@traversal_dicts_pass_the_order_assertion
                Q zero one QD_WIDTHS quat_euler_deg2rad
                (prepared float (mkDefaults [] []) four_links_worldbody) s E))).
Defined.

(** No options node; two options nodes; options but no worldbody. *)
Lemma missing_options_or_worldbody_witness :
  load motor_without_options = Err AttributeError /\
  load (document [options; options; four_links_worldbody])
  = Err (AssertionError StructuralViolation) /\
  load (document [options]) = Err AttributeError.
Proof.
  split; [|split].
  - destruct (@missing_options_or_worldbody
                Q float zero one QD_WIDTHS quat_euler_deg2rad motor_without_options)
      as (Hnone & _).
    now apply Hnone.
  - destruct (@missing_options_or_worldbody
                Q float zero one QD_WIDTHS quat_euler_deg2rad
                (document [options; options; four_links_worldbody]))
      as (_ & Hmany & _).
    apply Hmany. cbn. lia.
  - destruct (@missing_options_or_worldbody
                Q float zero one QD_WIDTHS quat_euler_deg2rad (document [options]))
      as (_ & _ & Hworld).
    apply (Hworld options (mkDefaults [] [])); reflexivity.
Defined.

(** A worldbody that holds a geom only. *)
Lemma worldbody_without_bodies_is_an_index_error_witness :
  load (document [options; Node "worldbody" [] [Node "geom" [] []]])
  = Err IndexError.
Proof.
  apply (@worldbody_without_bodies_is_an_index_error
           Q float zero one QD_WIDTHS quat_euler_deg2rad
           (document [options; Node "worldbody" [] [Node "geom" [] []]])
           (attrib options) (mkDefaults [] [])
           (Node "worldbody" [] [Node "geom" [] []]));
    reflexivity.
Defined.

(** The four-link document: dt 0.01 as a 0-dimensional array. *)
Lemma time_step_and_gravity_are_the_converted_options_witness :
  exists sys,
    load four_links = Ok sys /\
    sys_dt sys = VArr (Scalar (Qmake 1 100)) /\
    exists options' dt gravity,
      findall "options" four_links = [options'] /\
      sget (attrib options') "dt" = Some dt /\
      sget (attrib options') "gravity" = Some gravity /\
      sys_dt sys = convert_value float dt /\
      sys_gravity sys = convert_value float gravity.
Proof.
  assert (E : exists sys, load four_links = Ok sys)
    by (eexists; vm_compute; reflexivity).
  destruct E as [sys E]. exists sys. split; [exact E|].
  split.
  - vm_compute in E. injection E as <-. reflexivity.
  - exact (@time_step_and_gravity_are_the_converted_options
             Q float zero one QD_WIDTHS quat_euler_deg2rad four_links sys E).
Defined.

(** The four-link document has four links. *)
Lemma one_link_per_body_of_the_document_witness :
  exists sys,
    load four_links = Ok sys /\
    exists worldbody,
      findall "worldbody" four_links = [worldbody] /\
      let n := List.length (bodies_of (children worldbody)) in
      1 <= n /\
      List.length (sys_link_parents sys) = n /\
      List.length (sys_links sys) = n /\
      List.length (sys_link_types sys) = n /\
      List.length (sys_link_names sys) = n /\
      List.length (sys_geoms sys) = n.
Proof.
  assert (E : exists sys, load four_links = Ok sys)
    by (eexists; vm_compute; reflexivity).
  destruct E as [sys E]. exists sys. split; [exact E|].
  exact (@one_link_per_body_of_the_document
           Q float zero one QD_WIDTHS quat_euler_deg2rad four_links sys E).
Defined.

(** A body named 7: the name of its link is an array. *)
Lemma link_names_and_types_are_the_coerced_attributes_witness :
  exists sys,
    load (document
            [options;
             Node "worldbody" [] [Node "body" [("name", str "7"); ("joint", str "free")] []]])
    = Ok sys /\
    sys_link_names sys = [VArr (Scalar (Qmake 7 1))] /\
    exists worldbody default_attrs,
      findall "worldbody"
              (document
                 [options;
                  Node "worldbody" []
                    [Node "body" [("name", str "7"); ("joint", str "free")] []]])
      = [worldbody] /\
      Forall2 (fun name b =>
                 option_map (convert_value float)
                            (match sget (attrib b) "name" with
                             | Some v => Some v
                             | None => sget (body_defaults default_attrs) "name"
                             end) = Some name)
              (sys_link_names sys) (bodies_of (children worldbody)).
Proof.
  assert (E : exists sys,
             load (document
                     [options;
                      Node "worldbody" []
                        [Node "body" [("name", str "7"); ("joint", str "free")] []]])
             = Ok sys)
    by (eexists; vm_compute; reflexivity).
  destruct E as [sys E]. exists sys. split; [exact E|].
  split.
  - vm_compute in E. injection E as <-. reflexivity.
  - destruct (@link_names_and_types_are_the_coerced_attributes
                Q float zero one QD_WIDTHS quat_euler_deg2rad _ sys E)
      as (worldbody & default_attrs & Hw & _ & Hnames & _).
    exists worldbody, default_attrs. split; [exact Hw|exact Hnames].
Defined.

(** The four-link document below a root tagged worldbody, without a
    model attribute. *)
Lemma root_is_only_schema_checked_witness :
  node_valid (Node "x_xy" [("model", str "example")] ([] : list (Element Q))) = Ok tt /\
  node_valid (Node "worldbody" [] ([] : list (Element Q))) = Ok tt /\
  load four_links = load (Node "worldbody" [] [options; four_links_worldbody]).
Proof.
  split; [reflexivity|]. split; [reflexivity|].
  exact (@root_is_only_schema_checked Q float zero one QD_WIDTHS quat_euler_deg2rad
           "x_xy" [("model", str "example")] "worldbody" []
           [options; four_links_worldbody] eq_refl eq_refl).
Defined.

(** The four-link document with the worldbody before the options. *)
Lemma order_of_the_root_children_is_irrelevant_witness :
  load (document [four_links_worldbody; options]) = load four_links.
Proof.
  apply (@order_of_the_root_children_is_irrelevant
           Q float zero one QD_WIDTHS quat_euler_deg2rad
           "x_xy" [("model", str "example")]
           [four_links_worldbody; options] [options; four_links_worldbody]).
  apply perm_swap.
Defined.
